(** * Tuyau API types generator

    A shallow embedding of [packages/core/src/codegen/api_types_generator.ts]
    (class [ApiTypesGenerator]) and the properties of its route filter, type
    name synthesis, definition tree, named-routes array and file emitter.

    JavaScript strings are modelled as [string] (one [ascii] per code unit,
    ASCII case mapping), plain objects as ordered association lists that
    follow the property order of [Object.entries], and the file the
    generator writes as an entry of a [gmap] keyed by path.

    A property read on an object of the definition tree finds its own
    properties first and then the members every object inherits from
    [Object.prototype].  What the generator does once its walk has left the
    definition tree for such a member, or for a property of a stored type
    name, is not followed: the run is given the outcome [Outside].  The type
    map is read and written under type names only, for which its own
    properties are looked up.

    [generate] takes a configuration whose regular expressions carry neither
    the [g] nor the [y] flag.  [LastIndex] holds the filter and the run for
    regular expression objects that keep [lastIndex] between two calls of
    [test], and the two are proved to agree where no entry has such a flag. *)

From Stdlib Require Import String Ascii List Bool Arith Lia NArith.
From stdpp Require Import gmap strings.
Import ListNotations.
Open Scope string_scope.
Set Warnings "-register-all".

(* ================================================================== *)
(** ** JavaScript strings *)
(* ================================================================== *)

Module JS.

Definition isLower (c : ascii) : bool :=
  let n := nat_of_ascii c in (97 <=? n)%nat && (n <=? 122)%nat.

Definition isUpper (c : ascii) : bool :=
  let n := nat_of_ascii c in (65 <=? n)%nat && (n <=? 90)%nat.

Definition isDigit (c : ascii) : bool :=
  let n := nat_of_ascii c in (48 <=? n)%nat && (n <=? 57)%nat.

Definition isAlnum (c : ascii) : bool := isLower c || isUpper c || isDigit c.

(** White space of [String.prototype.trim] and of the class [\s], ASCII part. *)
Definition isSpace (c : ascii) : bool :=
  let n := nat_of_ascii c in
  (n =? 32)%nat || ((9 <=? n)%nat && (n <=? 13)%nat).

Definition lowerChar (c : ascii) : ascii :=
  if isUpper c then ascii_of_nat (nat_of_ascii c + 32) else c.

Definition upperChar (c : ascii) : ascii :=
  if isLower c then ascii_of_nat (nat_of_ascii c - 32) else c.

(** [s.toLowerCase()] *)
Fixpoint toLowerCase (s : string) : string :=
  match s with
  | EmptyString => EmptyString
  | String c rest => String (lowerChar c) (toLowerCase rest)
  end.

(** [s.split(sep)] for a one-character separator: never the empty list,
    the empty string splits to a list holding the empty string. *)
Fixpoint split (sep : ascii) (s : string) : list string :=
  match s with
  | EmptyString => [EmptyString]
  | String c rest =>
      if Ascii.eqb c sep then EmptyString :: split sep rest
      else match split sep rest with
           | [] => [String c EmptyString]
           | hd :: tl => String c hd :: tl
           end
  end.

(** [l.join(sep)] *)
Definition join (sep : string) (l : list string) : string := String.concat sep l.

(** Truthiness of a string, as used by [filter(Boolean)] and [!!name]. *)
Definition truthy (s : string) : bool := negb (String.eqb s EmptyString).

(** [s.startsWith(p)] *)
Definition startsWith (p s : string) : bool := String.prefix p s.

(** [s.includes(needle)] *)
Fixpoint includes (needle s : string) : bool :=
  String.prefix needle s ||
  match s with
  | EmptyString => false
  | String _ rest => includes needle rest
  end.

(** [s.endsWith(suffix)] *)
Fixpoint endsWith (suffix s : string) : bool :=
  String.eqb s suffix ||
  match s with
  | EmptyString => false
  | String _ rest => endsWith suffix rest
  end.

(** [s.replace(c, empty)] with a one-character string pattern: only the first
    occurrence is removed. *)
Fixpoint removeFirst (c : ascii) (s : string) : string :=
  match s with
  | EmptyString => EmptyString
  | String d rest => if Ascii.eqb d c then rest else String d (removeFirst c rest)
  end.

End JS.

(* ================================================================== *)
(** ** Plain objects used as records of properties *)
(* ================================================================== *)

(** An object is the list of its own enumerable string-keyed properties in
    the order [Object.entries] yields them: array-index keys first, in
    ascending numeric order, then all other keys in insertion order. *)

Module Obj.

Section Objects.
Context {V : Type}.

Definition t := list (string * V).

Definition empty : t := [].

(** [o[k]]: [None] stands for [undefined]. *)
Fixpoint get (k : string) (o : t) : option V :=
  match o with
  | [] => None
  | (k', v) :: rest => if String.eqb k k' then Some v else get k rest
  end.

Definition has (k : string) (o : t) : bool :=
  match get k o with Some _ => true | None => false end.

(** Assignment to a property the object already has keeps its position. *)
Fixpoint replace (k : string) (v : V) (o : t) : t :=
  match o with
  | [] => []
  | (k', v') :: rest =>
      if String.eqb k k' then (k, v) :: rest else (k', v') :: replace k v rest
  end.

Fixpoint digitsValue (acc : N) (s : string) : option N :=
  match s with
  | EmptyString => Some acc
  | String c rest =>
      if JS.isDigit c
      then digitsValue (acc * 10 + (N_of_ascii c - 48))%N rest
      else None
  end.

(** A key is an array index when it is the canonical decimal form of an
    integer below 2^32 - 1. *)
Definition arrayIndex (k : string) : option N :=
  match k with
  | EmptyString => None
  | String c rest =>
      if Ascii.eqb c "0"
      then match rest with EmptyString => Some 0%N | _ => None end
      else match digitsValue 0 k with
           | Some n => if (n <? 4294967295)%N then Some n else None
           | None => None
           end
  end.

(** A new array-index key goes before the first property that is not an
    array index or that has a larger index. *)
Fixpoint insertIndex (n : N) (k : string) (v : V) (o : t) : t :=
  match o with
  | [] => [(k, v)]
  | (k', v') :: rest =>
      match arrayIndex k' with
      | Some m =>
          if (m <? n)%N then (k', v') :: insertIndex n k v rest
          else (k, v) :: o
      | None => (k, v) :: o
      end
  end.

(** [o[k] = v] *)
Definition set (k : string) (v : V) (o : t) : t :=
  if has k o then replace k v o
  else match arrayIndex k with
       | Some n => insertIndex n k v o
       | None => (o ++ [(k, v)])%list
       end.

End Objects.

Arguments t : clear implicits.

(** The string-keyed members of [Object.prototype]: what [o[k]] finds on a
    plain object that has no own property [k]. *)
Definition prototypeMembers : list string :=
  [ "constructor"; "__defineGetter__"; "__defineSetter__"; "hasOwnProperty";
    "__lookupGetter__"; "__lookupSetter__"; "isPrototypeOf";
    "propertyIsEnumerable"; "toString"; "valueOf"; "__proto__";
    "toLocaleString" ].

Definition inherited (k : string) : bool :=
  existsb (String.eqb k) prototypeMembers.

End Obj.

(* ================================================================== *)
(** ** Routes and configuration *)
(* ================================================================== *)

(** [route.handler]: an inline function, or an object carrying the binding
    reference of a controller method. *)
Inductive RouteHandler :=
| HandlerFunction
| HandlerReference (reference : string).

(** [RouteJSON], restricted to the fields the generator reads. *)
Record RouteJSON := {
  name : option string;
  pattern : string;
  methods : list string;
  handler : RouteHandler
}.

(** A regular expression without the [g] and [y] flags: [test] does not
    depend on earlier calls.  The objects with these flags are those of
    [LastIndex] below. *)
Record RegExp := {
  source : string;
  test : string -> bool
}.

Inductive PatternEntry :=
| EntryString (s : string)
| EntryRegExp (re : RegExp).

(** The value of [only] or [except]: a predicate on routes or a list of
    strings and regular expressions. *)
Inductive RouteFilter :=
| FilterFunction (f : RouteJSON -> bool)
| FilterList (entries : list PatternEntry).

Record FilterConfig := {
  only : option RouteFilter;
  except : option RouteFilter
}.

Record CodegenConfig := {
  definitions : option FilterConfig;
  routes : option FilterConfig
}.

Record TuyauConfig := {
  codegen : option CodegenConfig
}.

Inductive Mode := Definitions | Routes.

(** [this.#config.codegen?.[mode]] *)
Definition modeConfig (config : TuyauConfig) (mode : Mode) : option FilterConfig :=
  match codegen config with
  | None => None
  | Some c => match mode with Definitions => definitions c | Routes => routes c end
  end.

(* ================================================================== *)
(** ** #filterRoutes *)
(* ================================================================== *)

(** One turn of the loop over a list: the entry decides when it is a regular
    expression that matches the pattern or a string equal to it. *)
Definition entryMatches (pat : string) (e : PatternEntry) : bool :=
  match e with
  | EntryRegExp re => test re pat
  | EntryString s => String.eqb pat s
  end.

(** The [for (const pattern of ...)] loop: [true] when some turn returns. *)
Fixpoint matchesSome (pat : string) (entries : list PatternEntry) : bool :=
  match entries with
  | [] => false
  | e :: rest => if entryMatches pat e then true else matchesSome pat rest
  end.

(** The callback given to [routes.filter]. *)
Definition keepRoute (config : FilterConfig) (route : RouteJSON) : bool :=
  match only config, except config with
  | Some (FilterFunction f), _ => f route
  | _, Some (FilterFunction g) => negb (g route)
  | Some (FilterList entries), _ => matchesSome (pattern route) entries
  | None, Some (FilterList entries) => negb (matchesSome (pattern route) entries)
  | None, None => true
  end.

Definition filterRoutes (config : TuyauConfig) (rs : list RouteJSON) (mode : Mode)
  : list RouteJSON :=
  match modeConfig config mode with
  | None => rs
  | Some c =>
      match only c, except c with
      | None, None => rs
      | _, _ => List.filter (keepRoute c) rs
      end
  end.

(* ================================================================== *)
(** ** External collaborators *)
(* ================================================================== *)

(** [parseBindingReference] result. *)
Record RouteReferenceParsed := {
  moduleNameOrPath : string;
  method : string
}.

(** A node of [matchit.parse]: [type] 0 is a static segment, every other
    type is dynamic. *)
Record MatchitNode := {
  type : nat;
  val : string
}.

(** The functions the generator imports from other packages. *)
Class Externals := {
  (** [string.pascalCase] of [@adonisjs/core/helpers/string] *)
  pascalCase : string -> string;
  (** [parseBindingReference] of [@adonisjs/core/helpers] *)
  parseBindingReference : string -> RouteReferenceParsed;
  (** [relative] of [node:path] *)
  relative : string -> string -> string;
  (** [matchit.parse] of [@poppinss/matchit] *)
  matchitParse : string -> list MatchitNode
}.

(* ================================================================== *)
(** ** #generateTypeName *)
(* ================================================================== *)

Section TypeName.
Context `{Externals}.

(** [(segment) => (segment.startsWith(':') ? 'id' : segment)] *)
Definition remapSegment (segment : string) : string :=
  if JS.startsWith ":" segment then "id" else segment.

(** [pattern.split('/').filter(Boolean)] *)
Definition patternSegments (pat : string) : list string :=
  List.filter JS.truthy (JS.split "/" pat).

Definition generateTypeName (pat : string) (ms : list string) : string :=
  let remappedSegments := JS.join " " (map remapSegment (patternSegments pat)) in
  let methodsName := pascalCase (JS.join " " ms) in
  pascalCase remappedSegments ++ methodsName.

End TypeName.

(* ================================================================== *)
(** ** The source project *)
(* ================================================================== *)

(** Syntax tree nodes, with the three shapes the generator tells apart.
    Every node carries its source text; an identifier carries the file
    paths of the implementations the language service finds for it. *)
Inductive Node :=
| CallExpression (text : string) (expression : Node) (arguments : list Node)
| Identifier (text : string) (implementations : list string)
| OtherNode (text : string) (children : list Node).

Definition getText (n : Node) : string :=
  match n with
  | CallExpression t _ _ => t
  | Identifier t _ => t
  | OtherNode t _ => t
  end.

Record MethodDeclaration := {
  methodName : string;
  (** the child nodes of the declaration, in source order *)
  methodChildren : list Node;
  (** [getBody()] *)
  getBody : option Node
}.

Record ClassDeclaration := {
  isDefaultExport : bool;
  getMethods : list MethodDeclaration
}.

Record SourceFile := {
  getFilePath : string;
  getClasses : list ClassDeclaration
}.

Record HandlerData := {
  hd_method : MethodDeclaration;
  hd_body : Node
}.

Inductive LogLine :=
| Warning (message : string)
| Info (message : string).

(** [classDef.getMethod(name)] *)
Definition getMethod (classDef : ClassDeclaration) (n : string)
  : option MethodDeclaration :=
  List.find (fun m => String.eqb (methodName m) n) (getMethods classDef).

(** [#extractClassHandlerData] *)
Definition extractClassHandlerData (file : SourceFile) (routeHandler : RouteReferenceParsed)
  : option HandlerData :=
  match List.find isDefaultExport (getClasses file) with
  | None => None
  | Some classDef =>
      match getMethod classDef (method routeHandler) with
      | None => None
      | Some m =>
          match getBody m with
          | None => None
          | Some body => Some {| hd_method := m; hd_body := body |}
          end
      end
  end.

(** The callback of [forEachDescendant]: a call expression whose callee
    text includes [validateUsing] stops the traversal. *)
Definition isValidateUsingCall (n : Node) : bool :=
  match n with
  | CallExpression _ expression _ => JS.includes "validateUsing" (getText expression)
  | _ => false
  end.

(** The traversal visits a node, then its descendants, then its next
    sibling, and returns the first node the callback accepts. *)
Fixpoint visitNode (n : Node) : option Node :=
  if isValidateUsingCall n then Some n
  else
    let visitAll :=
      fix visitAll (l : list Node) : option Node :=
        match l with
        | [] => None
        | c :: rest =>
            match visitNode c with
            | Some r => Some r
            | None => visitAll rest
            end
        end in
    match n with
    | CallExpression _ expression arguments =>
        match visitNode expression with
        | Some r => Some r
        | None => visitAll arguments
        end
    | Identifier _ _ => None
    | OtherNode _ children => visitAll children
    end.

Fixpoint forEachDescendant (children : list Node) : option Node :=
  match children with
  | [] => None
  | c :: rest =>
      match visitNode c with
      | Some r => Some r
      | None => forEachDescendant rest
      end
  end.

(* ================================================================== *)
(** ** Generator state *)
(* ================================================================== *)

(** Values stored in the definition object: a type name or a nested object. *)
Inductive DefValue :=
| VString (s : string)
| VObject (o : list (string * DefValue)).

Record TypeEntry := {
  request : string;
  response : string
}.

Module RouteName.
Record t := {
  params : list string;
  name : option string;
  path : string;
  method : list string;
  types : string
}.
End RouteName.

Definition RouteNameArray := list RouteName.t.

Record ApiTypesGenerator := {
  (** [fileURLToPath(this.#destination)] *)
  gen_destination : string;
  (** [dirname(this.#destination.pathname)] *)
  gen_destinationDirectory : string;
  (** [this.#project.getSourceFiles()] *)
  gen_sourceFiles : list SourceFile;
  gen_config : TuyauConfig;
  gen_routes : list RouteJSON
}.

(** The two accumulators of [generate] and what the logger received. *)
Record GenState := {
  definition : Obj.t DefValue;
  typesByPattern : Obj.t TypeEntry;
  logs : list LogLine
}.

Definition initialState : GenState :=
  {| definition := Obj.empty; typesByPattern := Obj.empty; logs := [] |}.

Definition logMore (st : GenState) (lines : list LogLine) : GenState :=
  {| definition := definition st;
     typesByPattern := typesByPattern st;
     logs := (logs st ++ lines)%list |}.

(** Why a run is not followed to its end: an uncaught exception, given by
    the name of its class, or a walk that has left the definition tree at a
    segment (for a member inherited from [Object.prototype], or for a
    property of a stored type name). *)
Inductive Stop :=
| Raised (error : string)
| Outside (segment : string).

(** A run either completes or is stopped. *)
Inductive Result (A : Type) :=
| Ok (a : A)
| Stopped (why : Stop).
Arguments Ok {A} a.
Arguments Stopped {A} why.

Abbreviation Throw error := (Stopped (Raised error)).

Definition bind {A B} (r : Result A) (k : A -> Result B) : Result B :=
  match r with
  | Ok a => k a
  | Stopped why => Stopped why
  end.

Notation "'let*' x ':=' r 'in' k" := (bind r (fun x => k))
  (at level 10, x name, r at level 100, k at level 200).

Section Generator.
Context `{Externals}.
Variable gen : ApiTypesGenerator.

(** [#extractRequest]: the warnings it logs and the type reference, or
    [None] for [undefined]. *)
Definition extractRequest (handlerData : HandlerData) : list LogLine * option string :=
  match forEachDescendant (methodChildren (hd_method handlerData)) with
  | Some (CallExpression _ _ arguments) =>
      match arguments with
      | Identifier schemaText implementations :: _ =>
          match implementations with
          | [] =>
              ([Warning ("Unable to find the schema file for " ++ schemaText)], None)
          | importPath :: _ =>
              let relativeImportPath :=
                relative (gen_destinationDirectory gen) importPath in
              ([], Some ("InferInput<typeof import('" ++ relativeImportPath
                         ++ "')['" ++ schemaText ++ "']>"))
          end
      | _ => ([], None)
      end
  | _ => ([], None)
  end.

(** [route.methods.map((method) => '$' + method.toLowerCase())
       .filter((method) => method !== 'head')] *)
Definition verbKeys (route : RouteJSON) : list string :=
  List.filter (fun m => negb (String.eqb m "head"))
              (map (fun m => "$" ++ JS.toLowerCase m) (methods route)).

(** The end of the [forEach] callback, at the last segment:
    [currentLevel.$url = {}] and one key per verb. *)
Definition assignLeaf (typeName : string) (verbs : list string)
           (currentLevel : Obj.t DefValue) : Obj.t DefValue :=
  fold_left (fun level m => Obj.set m (VString typeName) level) verbs
            (Obj.set "$url" (VObject Obj.empty) currentLevel).

(** [if (!currentLevel[segment]) currentLevel[segment] = {}].  Without an
    own property the read finds an inherited member when the segment names
    one: a function or [Object.prototype] itself, truthy, so that nothing is
    created. *)
Definition ensureLevel (segment : string) (currentLevel : Obj.t DefValue)
  : Obj.t DefValue :=
  match Obj.get segment currentLevel with
  | None =>
      if Obj.inherited segment then currentLevel
      else Obj.set segment (VObject Obj.empty) currentLevel
  | Some (VString s) =>
      if JS.truthy s then currentLevel
      else Obj.set segment (VObject Obj.empty) currentLevel
  | Some (VObject _) => currentLevel
  end.

(** [segments.forEach(...)], from the level the walk has reached.  The
    nested objects are shared with their parents, so what the callback
    does to the child is stored back under its key.

    [currentLevel = currentLevel[segment]] then has three cases.  An own
    object: the walk goes on in it.  An own type name: at the last segment
    [currentLevel.$url = {}] is an assignment on a string and raises a
    TypeError; before the last segment the next read is a property of the
    string, outside the tree.  No own property after the line above: the
    segment names an inherited member, outside the tree. *)
Fixpoint walkSegments (segments : list string) (typeName : string)
         (verbs : list string) (currentLevel : Obj.t DefValue)
  : Result (Obj.t DefValue) :=
  match segments with
  | [] => Ok currentLevel
  | segment :: rest =>
      let level := ensureLevel segment currentLevel in
      match Obj.get segment level with
      | Some (VObject child) =>
          match rest with
          | [] =>
              Ok (Obj.set segment (VObject (assignLeaf typeName verbs child)) level)
          | _ =>
              let* child' := walkSegments rest typeName verbs child in
              Ok (Obj.set segment (VObject child') level)
          end
      | Some (VString _) =>
          match rest with
          | [] => Throw "TypeError"
          | next :: _ => Stopped (Outside next)
          end
      | None => Stopped (Outside segment)
      end
  end.

(** [sourcesFiles.find(...)] *)
Definition findControllerFile (routeHandler : RouteReferenceParsed)
  : option SourceFile :=
  List.find
    (fun sf =>
       JS.endsWith (JS.removeFirst "#" (moduleNameOrPath routeHandler) ++ ".ts")
                   (getFilePath sf))
    (gen_sourceFiles gen).

(** One turn of the [for (const route of routes)] loop. *)
Definition processRoute (st : GenState) (route : RouteJSON) : Result GenState :=
  match handler route with
  | HandlerFunction => Ok st
  | HandlerReference reference =>
      let routeHandler := parseBindingReference reference in
      match findControllerFile routeHandler with
      | None =>
          Ok (logMore st
                [Warning ("Unable to find the controller file for " ++ pattern route)])
      | Some file =>
          let st1 := logMore st [Info ("Generating types for " ++ pattern route)] in
          match extractClassHandlerData file routeHandler with
          | None =>
              Ok (logMore st1
                    [Warning ("Unable to find the controller method for "
                              ++ pattern route)])
          | Some handlerData =>
              let '(warnings, schemaImport) := extractRequest handlerData in
              let verbs := verbKeys route in
              let segments := patternSegments (pattern route) in
              let relativePath :=
                relative (gen_destinationDirectory gen) (getFilePath file) in
              let typeName := generateTypeName (pattern route) (methods route) in
              let entry :=
                {| request :=
                     match schemaImport with
                     | Some s => "MakeTuyauRequest<" ++ s ++ ">"
                     | None => "unknown"
                     end;
                   response :=
                     "MakeTuyauResponse<import('" ++ relativePath
                     ++ "').default['" ++ method routeHandler ++ "']>" |} in
              let* definition' :=
                walkSegments segments typeName verbs (definition st) in
              Ok {| definition := definition';
                    typesByPattern :=
                      match segments with
                      | [] => typesByPattern st
                      | _ => Obj.set typeName entry (typesByPattern st)
                      end;
                    logs := (logs st1 ++ warnings)%list |}
          end
      end
  end.

Fixpoint processRoutes (st : GenState) (rs : list RouteJSON) : Result GenState :=
  match rs with
  | [] => Ok st
  | route :: rest =>
      let* st' := processRoute st route in
      processRoutes st' rest
  end.

(** [#generateRoutesNameArray]: the callback of [map]. *)
Definition routeNameEntry (types : Obj.t TypeEntry) (route : RouteJSON)
  : RouteName.t :=
  let params :=
    map val (List.filter (fun node => negb (type node =? 0)%nat)
                         (matchitParse (pattern route))) in
  let typeName := generateTypeName (pattern route) (methods route) in
  let typeName := if Obj.has typeName types then typeName else "unknown" in
  {| RouteName.params := params;
     RouteName.name := name route;
     RouteName.path := pattern route;
     RouteName.method := methods route;
     RouteName.types := typeName |}.

(** [!!route.name] *)
Definition hasName (n : option string) : bool :=
  match n with
  | Some s => JS.truthy s
  | None => false
  end.

Definition generateRoutesNameArray (rs : list RouteJSON) (types : Obj.t TypeEntry)
  : RouteNameArray :=
  List.filter (fun entry => hasName (RouteName.name entry))
              (map (routeNameEntry types) rs).

End Generator.

(* ================================================================== *)
(** ** #writeApiFile *)
(* ================================================================== *)

Module Emit.

Definition nl : string := String (ascii_of_nat 10) EmptyString.

Fixpoint lastChar (s : string) : option ascii :=
  match s with
  | EmptyString => None
  | String c EmptyString => Some c
  | String _ rest => lastChar rest
  end.

(** [writer.writeLine(text)]: starts on a fresh line and ends the line. *)
Definition writeLine (text : string) (written : string) : string :=
  let fresh :=
    match lastChar written with
    | None => written
    | Some c => if Ascii.eqb c (ascii_of_nat 10) then written else written ++ nl
    end in
  fresh ++ text ++ nl.

(** [writer.write(text)] *)
Definition write (text : string) (written : string) : string := written ++ text.

(** [writer.newLine()] *)
Definition newLine (written : string) : string := written ++ nl.

Definition quote : string := String (ascii_of_nat 34) EmptyString.

Definition hexDigit (n : nat) : ascii :=
  if (n <? 10)%nat then ascii_of_nat (48 + n) else ascii_of_nat (87 + n).

(** The escape [JSON.stringify] writes for one code unit of a string. *)
Definition jsonChar (c : ascii) : string :=
  let n := nat_of_ascii c in
  if (n =? 34)%nat then "\" ++ quote
  else if (n =? 92)%nat then "\\"
  else if (n =? 8)%nat then "\b"
  else if (n =? 9)%nat then "\t"
  else if (n =? 10)%nat then "\n"
  else if (n =? 12)%nat then "\f"
  else if (n =? 13)%nat then "\r"
  else if (n <? 32)%nat
       then "\u00" ++ String (hexDigit (n / 16))
                                (String (hexDigit (n mod 16)) EmptyString)
       else String c EmptyString.

Fixpoint jsonChars (s : string) : string :=
  match s with
  | EmptyString => EmptyString
  | String c rest => jsonChar c ++ jsonChars rest
  end.

(** [JSON.stringify] of an array of strings. *)
Definition stringify (l : list string) : string :=
  "[" ++ JS.join "," (map (fun s => quote ++ jsonChars s ++ quote) l) ++ "]".

End Emit.

Section Emitter.
Import Emit.

(** [#generateDefinitionInterface]: the text of one property, nested
    objects being written with two more spaces of indentation. *)
Fixpoint definitionProperty (indent key : string) (value : DefValue) : string :=
  match value with
  | VObject o =>
      indent ++ "'" ++ key ++ "': {" ++ nl
      ++ (fix properties (l : list (string * DefValue)) : string :=
            match l with
            | [] => EmptyString
            | (k, v) :: rest => definitionProperty (indent ++ "  ") k v ++ properties rest
            end) o
      ++ indent ++ "};" ++ nl
  | VString s => indent ++ "'" ++ key ++ "': " ++ s ++ ";" ++ nl
  end.

Fixpoint generateDefinitionInterface (types : Obj.t DefValue) (indent : string)
  : string :=
  match types with
  | [] => EmptyString
  | (key, value) :: rest =>
      definitionProperty indent key value ++ generateDefinitionInterface rest indent
  end.

(** Runs the writer calls in order on an empty text. *)
Definition written (calls : list (string -> string)) : string :=
  fold_left (fun text call => call text) calls EmptyString.

Definition writeType (entry : string * TypeEntry) : list (string -> string) :=
  let '(key, value) := entry in
  [ writeLine ("type " ++ key ++ " = {");
    writeLine ("  request: " ++ request value);
    writeLine ("  response: " ++ response value);
    writeLine "}" ].

(** [`${route.name}`] *)
Definition nameText (n : option string) : string :=
  match n with
  | Some s => s
  | None => "undefined"
  end.

Definition writeRoute (route : RouteName.t) : list (string -> string) :=
  [ writeLine "  {";
    writeLine ("    params: " ++ stringify (RouteName.params route) ++ ",");
    writeLine ("    name: '" ++ nameText (RouteName.name route) ++ "',");
    writeLine ("    path: '" ++ RouteName.path route ++ "',");
    writeLine ("    method: " ++ stringify (RouteName.method route) ++ ",");
    writeLine ("    types: {} as " ++ RouteName.types route ++ ",");
    writeLine "  }," ].

(** The text given to [file.removeText().insertText(0, ...)]. *)
Definition apiFileText (routesNameArray : RouteNameArray)
           (definition : Obj.t DefValue) (typesByPattern : Obj.t TypeEntry)
  : string :=
  written
    ([ writeLine
         "import type { MakeTuyauRequest, MakeTuyauResponse } from '@tuyau/utils/types'";
       writeLine "import type { InferInput } from '@vinejs/vine/types'";
       newLine ]
     ++ flat_map writeType typesByPattern
     ++ [ writeLine "export interface ApiDefinition {";
          write (generateDefinitionInterface definition "  ");
          writeLine "}" ]
     ++ [ writeLine "const routes = [" ]
     ++ flat_map writeRoute routesNameArray
     ++ [ writeLine "] as const;";
          writeLine "export const api = {";
          writeLine "  routes,";
          writeLine "  definition: {} as ApiDefinition";
          writeLine "}";
          writeLine "declare module '@tuyau/inertia/types' {";
          writeLine "  type ApiDefinition = typeof api";
          writeLine "  export interface Api extends ApiDefinition {}";
          writeLine "}" ])%list.

(** [#writeApiFile]: the source file at the destination is created anew
    ([overwrite: true]), given the generated text and saved. *)
Definition writeApiFile (destination : string) (routesNameArray : RouteNameArray)
           (definition : Obj.t DefValue) (typesByPattern : Obj.t TypeEntry)
           (disk : gmap string string) : gmap string string :=
  <[destination := apiFileText routesNameArray definition typesByPattern]> disk.

End Emitter.

(* ================================================================== *)
(** ** generate *)
(* ================================================================== *)

Section Generate.
Context `{Externals}.
Variable gen : ApiTypesGenerator.

(** What one run computes before it writes the file. *)
Record Generated := {
  out_state : GenState;
  out_routesNameArray : RouteNameArray
}.

Definition definitionRoutes : list RouteJSON :=
  filterRoutes (gen_config gen) (gen_routes gen) Definitions.

Definition generated : Result Generated :=
  let rs := definitionRoutes in
  let* st := processRoutes gen initialState rs in
  Ok {| out_state := st;
        out_routesNameArray :=
          generateRoutesNameArray
            (filterRoutes (gen_config gen) rs Routes) (typesByPattern st) |}.

(** [generate()]: the files on disk after the run and the log lines. *)
Definition generate (disk : gmap string string)
  : Result (gmap string string * list LogLine) :=
  let* g := generated in
  Ok (writeApiFile (gen_destination gen) (out_routesNameArray g)
                   (definition (out_state g)) (typesByPattern (out_state g)) disk,
      logs (out_state g)).

End Generate.

(* ================================================================== *)
(** ** Regular expressions that keep [lastIndex] *)
(* ================================================================== *)

(** [#filterRoutes] and [generate] once more, for a configuration whose
    lists may hold regular expression objects with the [g] or the [y] flag.
    Such an object starts its search at its [lastIndex] and writes it at
    every call of [test], so a call depends on the calls before it: within
    one filter, from one filter to the next, and from one run to the next.
    The values of [lastIndex] are kept in a store keyed by the object. *)

Module LastIndex.

(** A regular expression object.  [exec start s] is the end index of the
    match found in [s] by a search that starts at [start], if there is one:
    the first match at or after [start] with the [g] flag, the match at
    [start] with the [y] flag.  One object may stand in several lists;
    [objectId] tells the objects apart. *)
Record RegExpObject := {
  objectId : nat;
  objectSource : string;
  keepsLastIndex : bool;
  exec : nat -> string -> option nat
}.

Inductive Entry :=
| StringEntry (s : string)
| ObjectEntry (re : RegExpObject).

Inductive Filter :=
| PredicateFilter (f : RouteJSON -> bool)
| EntriesFilter (entries : list Entry).

Record ModeFilters := {
  onlyFilter : option Filter;
  exceptFilter : option Filter
}.

Record CodegenFilters := {
  definitionsFilters : option ModeFilters;
  routesFilters : option ModeFilters
}.

Record Configuration := {
  codegenFilters : option CodegenFilters
}.

(** [this.#config.codegen?.[mode]] *)
Definition modeFilters (config : Configuration) (mode : Mode) : option ModeFilters :=
  match codegenFilters config with
  | None => None
  | Some c =>
      match mode with
      | Definitions => definitionsFilters c
      | Routes => routesFilters c
      end
  end.

(** [pattern.test(s)].  With the [g] or the [y] flag the search starts at
    [lastIndex] and fails at once when that is beyond the end of the
    string; [lastIndex] becomes the end of the match, or 0 when there is
    none.  Without these flags the search starts at 0 and [lastIndex] is
    not written. *)
Definition testObject (re : RegExpObject) (s : string) (store : gmap nat nat)
  : bool * gmap nat nat :=
  if keepsLastIndex re then
    let lastIndex := default 0 (store !! objectId re) in
    match (if (lastIndex <=? String.length s)%nat
           then exec re lastIndex s else None) with
    | Some e => (true, <[objectId re := e]> store)
    | None => (false, <[objectId re := 0]> store)
    end
  else (match exec re 0 s with Some _ => true | None => false end, store).

(** One turn of the loop over a list. *)
Definition entryTest (pat : string) (e : Entry) (store : gmap nat nat)
  : bool * gmap nat nat :=
  match e with
  | ObjectEntry re => testObject re pat store
  | StringEntry s => (String.eqb pat s, store)
  end.

(** The [for (const pattern of ...)] loop: it returns at the first entry
    that decides, and the entries after it are not tested. *)
Fixpoint matchesSome (pat : string) (entries : list Entry) (store : gmap nat nat)
  : bool * gmap nat nat :=
  match entries with
  | [] => (false, store)
  | e :: rest =>
      let '(found, store') := entryTest pat e store in
      if found then (true, store') else matchesSome pat rest store'
  end.

(** The callback given to [routes.filter]. *)
Definition keepRoute (c : ModeFilters) (route : RouteJSON) (store : gmap nat nat)
  : bool * gmap nat nat :=
  match onlyFilter c, exceptFilter c with
  | Some (PredicateFilter f), _ => (f route, store)
  | _, Some (PredicateFilter g) => (negb (g route), store)
  | Some (EntriesFilter entries), _ => matchesSome (pattern route) entries store
  | None, Some (EntriesFilter entries) =>
      let '(found, store') := matchesSome (pattern route) entries store in
      (negb found, store')
  | None, None => (true, store)
  end.

(** [routes.filter(...)]: the callback is called on the routes in order. *)
Fixpoint filterList (c : ModeFilters) (rs : list RouteJSON) (store : gmap nat nat)
  : list RouteJSON * gmap nat nat :=
  match rs with
  | [] => ([], store)
  | route :: rest =>
      let '(keep, store1) := keepRoute c route store in
      let '(kept, store2) := filterList c rest store1 in
      (if keep then route :: kept else kept, store2)
  end.

Definition filterRoutes (config : Configuration) (rs : list RouteJSON) (mode : Mode)
           (store : gmap nat nat) : list RouteJSON * gmap nat nat :=
  match modeFilters config mode with
  | None => (rs, store)
  | Some c =>
      match onlyFilter c, exceptFilter c with
      | None, None => (rs, store)
      | _, _ => filterList c rs store
      end
  end.

(** What a run leaves: the files on disk, the log lines and the values of
    [lastIndex]. *)
Record Ran := {
  ran_disk : gmap string string;
  ran_logs : list LogLine;
  ran_store : gmap nat nat
}.

(** [generate()], with the configuration given apart: the field
    [gen_config] of the generator is not read. *)
Definition generate `{Externals} (gen : ApiTypesGenerator) (config : Configuration)
           (store : gmap nat nat) (disk : gmap string string) : Result Ran :=
  let '(rs, store1) := filterRoutes config (gen_routes gen) Definitions store in
  let* st := processRoutes gen initialState rs in
  let '(named, store2) := filterRoutes config rs Routes store1 in
  Ok {| ran_disk :=
          writeApiFile (gen_destination gen)
                       (generateRoutesNameArray named (typesByPattern st))
                       (definition st) (typesByPattern st) disk;
        ran_logs := logs st;
        ran_store := store2 |}.

(** The configuration as [generate] above takes it: every regular
    expression by its search from index 0. *)
Definition pureRegExp (re : RegExpObject) : RegExp :=
  {| source := objectSource re;
     test := fun s => match exec re 0 s with Some _ => true | None => false end |}.

Definition pureEntry (e : Entry) : PatternEntry :=
  match e with
  | StringEntry s => EntryString s
  | ObjectEntry re => EntryRegExp (pureRegExp re)
  end.

Definition pureFilter (f : Filter) : RouteFilter :=
  match f with
  | PredicateFilter p => FilterFunction p
  | EntriesFilter entries => FilterList (map pureEntry entries)
  end.

Definition pureMode (c : ModeFilters) : FilterConfig :=
  {| only := option_map pureFilter (onlyFilter c);
     except := option_map pureFilter (exceptFilter c) |}.

Definition pureConfig (config : Configuration) : TuyauConfig :=
  {| codegen :=
       option_map
         (fun c => {| definitions := option_map pureMode (definitionsFilters c);
                      routes := option_map pureMode (routesFilters c) |})
         (codegenFilters config) |}.

(** No regular expression of the list has the [g] or the [y] flag. *)
Definition flaglessEntry (e : Entry) : bool :=
  match e with
  | ObjectEntry re => negb (keepsLastIndex re)
  | StringEntry _ => true
  end.

Definition flaglessFilter (f : option Filter) : bool :=
  match f with
  | Some (EntriesFilter entries) => forallb flaglessEntry entries
  | _ => true
  end.

Definition flagless (config : Configuration) (mode : Mode) : bool :=
  match modeFilters config mode with
  | Some c => flaglessFilter (onlyFilter c) && flaglessFilter (exceptFilter c)
  | None => true
  end.

Definition isPredicate (f : option Filter) : bool :=
  match f with
  | Some (PredicateFilter _) => true
  | _ => false
  end.

End LastIndex.

(* ================================================================== *)
(** ** Models of the external collaborators *)
(* ================================================================== *)

(** The imported functions are code of other packages.  The theorems below
    hold for every [Externals]; the models of this module give the worked
    examples something to run on. *)

Module Model.

Definition chars := list ascii.

Fixpoint dropSpaces (s : chars) : chars :=
  match s with
  | [] => []
  | c :: rest => if JS.isSpace c then dropSpaces rest else s
  end.

Definition trim (s : chars) : chars := rev (dropSpaces (rev (dropSpaces s))).

(** The maximal runs of characters that are not white space. *)
Fixpoint spaceWords (cur : chars) (s : chars) : list chars :=
  match s with
  | [] => match cur with [] => [] | _ => [rev cur] end
  | c :: rest =>
      if JS.isSpace c
      then match cur with
           | [] => spaceWords [] rest
           | _ => rev cur :: spaceWords [] rest
           end
      else spaceWords (c :: cur) rest
  end.

Inductive Run :=
| NoRun
| LowerRun (w : chars)
| UpperRun (w : chars)
| DigitRun (w : chars).

Definition flush (r : Run) : list chars :=
  match r with
  | NoRun => []
  | LowerRun w | UpperRun w | DigitRun w => [rev w]
  end.

Definition start (c : ascii) : Run :=
  if JS.isLower c then LowerRun [c]
  else if JS.isUpper c then UpperRun [c]
  else if JS.isDigit c then DigitRun [c]
  else NoRun.

(** Words of a text without spaces: a run of lower-case letters with at
    most one capital before it, a run of capitals not followed by a
    lower-case letter, or a run of digits; every other character separates.
    The run in progress is kept reversed. *)
Fixpoint magicWords (r : Run) (s : chars) : list chars :=
  match s with
  | [] => flush r
  | c :: rest =>
      match r with
      | NoRun => magicWords (start c) rest
      | LowerRun w =>
          if JS.isLower c then magicWords (LowerRun (c :: w)) rest
          else (flush r ++ magicWords (start c) rest)%list
      | UpperRun w =>
          if JS.isUpper c then magicWords (UpperRun (c :: w)) rest
          else if JS.isLower c then
            match w with
            | [] => magicWords (LowerRun [c]) rest
            | [u] => magicWords (LowerRun [c; u]) rest
            | u :: w' => rev w' :: magicWords (LowerRun [c; u]) rest
            end
          else (flush r ++ magicWords (start c) rest)%list
      | DigitRun w =>
          if JS.isDigit c then magicWords (DigitRun (c :: w)) rest
          else (flush r ++ magicWords (start c) rest)%list
      end
  end.

Definition capitaliseWord (w : chars) : chars :=
  match w with
  | [] => []
  | c :: rest => JS.upperChar c :: map JS.lowerChar rest
  end.

Definition isEmpty (w : chars) : bool :=
  match w with [] => true | _ => false end.

(** Modelled from the spec: the PascalCase conversion of the string helper
    the generator imports, on ASCII text.  The text is trimmed; with a space
    in it the words are those between white space, stripped of everything
    but letters and digits, otherwise the words of [magicWords]; every word
    gets a capital first character and lower case after it. *)
Definition pascalCase (s : string) : string :=
  let t := trim (list_ascii_of_string s) in
  let words :=
    if existsb (Ascii.eqb " ") t
    then List.filter (fun w => negb (isEmpty w))
                     (map (List.filter JS.isAlnum) (spaceWords [] t))
    else magicWords NoRun t in
  string_of_list_ascii (concat (map capitaliseWord words)).

(** Modelled from the spec: the parser of a handler reference.  The text
    after the last dot names the method, [handle] when there is no dot. *)
Definition parseBindingReference (binding : string) : RouteReferenceParsed :=
  match rev (JS.split "." binding) with
  | [] | [_] => {| moduleNameOrPath := binding; method := "handle" |}
  | m :: tokens =>
      {| moduleNameOrPath := JS.join "." (rev tokens); method := m |}
  end.

Fixpoint dropCommon (a b : list string) : list string * list string :=
  match a, b with
  | x :: a', y :: b' => if String.eqb x y then dropCommon a' b' else (a, b)
  | _, _ => (a, b)
  end.

(** Modelled from the spec: the path of a file relative to a directory, both
    absolute and normalized: one step up for every directory left, then the
    remaining segments of the file. *)
Definition relative (from to : string) : string :=
  let '(up, down) :=
    dropCommon (List.filter JS.truthy (JS.split "/" from))
               (List.filter JS.truthy (JS.split "/" to)) in
  JS.join "/" (map (fun _ => "..") up ++ down)%list.

Fixpoint takeUntil (stop : ascii -> bool) (s : string) : string :=
  match s with
  | EmptyString => EmptyString
  | String c rest => if stop c then EmptyString else String c (takeUntil stop rest)
  end.

Definition parseSegment (segment : string) : MatchitNode :=
  match segment with
  | String ":" rest =>
      {| type := if JS.includes "?" rest then 3 else 1;
         val := takeUntil (fun c => Ascii.eqb c "?" || Ascii.eqb c ".") rest |}
  | String "*" _ => {| type := 2; val := segment |}
  | _ => {| type := 0; val := segment |}
  end.

(** Modelled from the spec: the pattern parser, which turns a URL pattern
    into its ordered segments, each tagged static (type 0) or dynamic: a
    parameter (1), a wildcard (2) or an optional parameter (3).  The value
    of a parameter is its name without the sigil. *)
Definition matchitParse (pat : string) : list MatchitNode :=
  if String.eqb pat "/" then [{| type := 0; val := "/" |}]
  else map parseSegment (List.filter JS.truthy (JS.split "/" pat)).

Definition externals : Externals :=
  Build_Externals pascalCase parseBindingReference relative matchitParse.

End Model.

(* ================================================================== *)
(** ** Notions used to state the properties *)
(* ================================================================== *)




(** Strings are stored under keys that start with a dollar sign only, at
    every depth. *)
Fixpoint stringsUnderDollar (v : DefValue) : bool :=
  match v with
  | VString _ => true
  | VObject o =>
      (fix all (l : list (string * DefValue)) : bool :=
         match l with
         | [] => true
         | (k, v') :: rest =>
             match v' with
             | VString _ => JS.startsWith "$" k
             | VObject _ => true
             end && stringsUnderDollar v' && all rest
         end) o
  end.

(** A route passes the filter of a mode. *)
Definition passes (config : TuyauConfig) (mode : Mode) (route : RouteJSON) : bool :=
  match modeConfig config mode with
  | None => true
  | Some c =>
      match only c, except c with
      | None, None => true
      | _, _ => keepRoute c route
      end
  end.

Definition isFilterFunction (f : option RouteFilter) : bool :=
  match f with
  | Some (FilterFunction _) => true
  | _ => false
  end.

(** [node.type !== 0] *)
Definition isDynamic (node : MatchitNode) : bool := negb (type node =? 0)%nat.

(** The first argument of the call is an identifier with an implementation. *)
Definition schemaResolves (arguments : list Node) : bool :=
  match arguments with
  | Identifier _ (_ :: _) :: _ => true
  | _ => false
  end.

(** The type entry written for a route whose handler is resolved. *)
Definition typeEntryOf `{Externals} (gen : ApiTypesGenerator) (file : SourceFile)
           (routeHandler : RouteReferenceParsed) (schemaImport : option string)
  : TypeEntry :=
  {| request :=
       match schemaImport with
       | Some s => "MakeTuyauRequest<" ++ s ++ ">"
       | None => "unknown"
       end;
     response :=
       "MakeTuyauResponse<import('"
       ++ relative (gen_destinationDirectory gen) (getFilePath file)
       ++ "').default['" ++ method routeHandler ++ "']>" |}.

(** No segment of the pattern starts with a dollar sign, the mark of the
    keys the generator adds to a node, and none names a member inherited
    from [Object.prototype]. *)
Definition plainSegments (route : RouteJSON) : Prop :=
  Forall (fun segment => JS.startsWith "$" segment = false
                         /\ Obj.inherited segment = false)
         (patternSegments (pattern route)).

(** The handler of a route cannot be resolved: no source file for the
    module, no default-exported class in it, or no such method in the
    class. *)
Definition unresolvable `{Externals} (gen : ApiTypesGenerator) (reference : string)
  : Prop :=
  let routeHandler := parseBindingReference reference in
  findControllerFile gen routeHandler = None
  \/ exists file,
       findControllerFile gen routeHandler = Some file
       /\ (List.find isDefaultExport (getClasses file) = None
           \/ exists classDef,
                List.find isDefaultExport (getClasses file) = Some classDef
                /\ getMethod classDef (method routeHandler) = None).

(** Two states that differ in their log lines at most. *)
Definition sameData (a b : GenState) : Prop :=
  definition a = definition b /\ typesByPattern a = typesByPattern b.

Definition sameOutcome (a b : Result GenState) : Prop :=
  match a, b with
  | Ok x, Ok y => sameData x y
  | Stopped why, Stopped why' => why = why'
  | _, _ => False
  end.

(* ================================================================== *)
(** ** A sample application *)
(* ================================================================== *)

Module Sample.

Definition callee : Node :=
  OtherNode "request.validateUsing"
            [Identifier "request" []; Identifier "validateUsing" []].

(** [await request.validateUsing(createUserValidator)] *)
Definition validatedBody : Node :=
  OtherNode "{ await request.validateUsing(createUserValidator) }"
    [OtherNode "await request.validateUsing(createUserValidator)"
       [CallExpression "request.validateUsing(createUserValidator)" callee
          [Identifier "createUserValidator" ["/app/app/validators/user.ts"]]]].

(** [await request.validateUsing(vine.compile(schema))] *)
Definition inlineSchemaBody : Node :=
  OtherNode "{ await request.validateUsing(vine.compile(schema)) }"
    [CallExpression "request.validateUsing(vine.compile(schema))" callee
       [CallExpression "vine.compile(schema)"
          (OtherNode "vine.compile" [Identifier "vine" []; Identifier "compile" []])
          [Identifier "schema" []]]].

Definition plainBody : Node := OtherNode "{ return User.all() }" [].

Definition methodOf (n : string) (body : Node) : MethodDeclaration :=
  {| methodName := n; methodChildren := [body]; getBody := Some body |}.

Definition usersController : SourceFile :=
  {| getFilePath := "/app/app/controllers/users_controller.ts";
     getClasses :=
       [ {| isDefaultExport := true;
            getMethods := [ methodOf "index" plainBody;
                            methodOf "store" validatedBody;
                            methodOf "update" inlineSchemaBody ] |} ] |}.

Definition usersIndex : RouteJSON :=
  {| name := Some "users.index"; pattern := "/users"; methods := ["GET"; "HEAD"];
     handler := HandlerReference "#controllers/users_controller.index" |}.

Definition usersUpdate : RouteJSON :=
  {| name := Some "users.update"; pattern := "/users/:id"; methods := ["PUT"];
     handler := HandlerReference "#controllers/users_controller.update" |}.

Definition commentsShow : RouteJSON :=
  {| name := Some "comments.show"; pattern := "/users/:id/comments/:commentId";
     methods := ["GET"];
     handler := HandlerReference "#controllers/comments_controller.show" |}.

Definition admin : RouteJSON :=
  {| name := None; pattern := "/admin"; methods := ["GET"];
     handler := HandlerFunction |}.

Definition health : RouteJSON :=
  {| name := Some "health"; pattern := "/health"; methods := ["GET"];
     handler := HandlerFunction |}.

Definition users : RouteJSON :=
  {| name := Some "users"; pattern := "/users"; methods := ["GET"];
     handler := HandlerFunction |}.

(** [/^\/users/] *)
Definition usersRegExp : RegExp :=
  {| source := "^\/users"; test := fun s => JS.startsWith "/users" s |}.

Definition configOf (definitionsFilter routesFilter : option FilterConfig)
  : TuyauConfig :=
  {| codegen := Some {| definitions := definitionsFilter; routes := routesFilter |} |}.

Definition onlyUsers : FilterConfig :=
  {| only := Some (FilterList [EntryRegExp usersRegExp]); except := None |}.

Definition exceptAdmin : FilterConfig :=
  {| only := None; except := Some (FilterList [EntryString "/admin"]) |}.

Definition exceptHealth : FilterConfig :=
  {| only := None; except := Some (FilterList [EntryString "/health"]) |}.

(** An [only] list next to an [except] predicate. *)
Definition onlyListExceptFunction : FilterConfig :=
  {| only := Some (FilterList [EntryString "/users"]);
     except := Some (FilterFunction (fun _ => false)) |}.

Definition generatorOf (config : TuyauConfig) (rs : list RouteJSON)
  : ApiTypesGenerator :=
  {| gen_destination := "/app/.adonisjs/api.ts";
     gen_destinationDirectory := "/app/.adonisjs";
     gen_sourceFiles := [usersController];
     gen_config := config;
     gen_routes := rs |}.

Definition noConfig : TuyauConfig := {| codegen := None |}.

Definition updateHandler : HandlerData :=
  {| hd_method := methodOf "update" inlineSchemaBody; hd_body := inlineSchemaBody |}.

Definition generator : ApiTypesGenerator :=
  generatorOf noConfig [usersIndex; usersUpdate; commentsShow; admin; health].

(** The definitions of [/health] are filtered out, its route entry is not. *)
Definition filteredGenerator : ApiTypesGenerator :=
  generatorOf (configOf (Some exceptHealth) None) [usersIndex; health].


Definition usersReplace : RouteJSON :=
  {| name := Some "users.replace"; pattern := "/users/:slug"; methods := ["PUT"];
     handler := HandlerReference "#controllers/users_controller.store" |}.

Definition root : RouteJSON :=
  {| name := Some "home"; pattern := "/"; methods := ["PUT"];
     handler := HandlerReference "#controllers/users_controller.update" |}.

(** [/^\/users/g] and [/^\/users/]: the anchor lets a search match at
    index 0 only, and the match ends at index 6. *)
Definition usersObject (flag : bool) : LastIndex.RegExpObject :=
  {| LastIndex.objectId := 0;
     LastIndex.objectSource := "^\/users";
     LastIndex.keepsLastIndex := flag;
     LastIndex.exec :=
       fun start s =>
         if (start =? 0)%nat && JS.startsWith "/users" s then Some 6 else None |}.

Definition onlyEntries (entries : list LastIndex.Entry) : LastIndex.ModeFilters :=
  {| LastIndex.onlyFilter := Some (LastIndex.EntriesFilter entries);
     LastIndex.exceptFilter := None |}.

Definition exceptEntries (entries : list LastIndex.Entry) : LastIndex.ModeFilters :=
  {| LastIndex.onlyFilter := None;
     LastIndex.exceptFilter := Some (LastIndex.EntriesFilter entries) |}.

Definition configurationOf (definitionsFilters routesFilters : option LastIndex.ModeFilters)
  : LastIndex.Configuration :=
  {| LastIndex.codegenFilters :=
       Some {| LastIndex.definitionsFilters := definitionsFilters;
               LastIndex.routesFilters := routesFilters |} |}.

(** [only: [/^\/users/]] for the definitions, [except: ['/users']] for the
    routes. *)
Definition onlyUsersExceptIndex : LastIndex.Configuration :=
  configurationOf (Some (onlyEntries [LastIndex.ObjectEntry (usersObject false)]))
                  (Some (exceptEntries [LastIndex.StringEntry "/users"])).

(** [only: [/^\/users/g]] for the definitions. *)
Definition onlyGlobalUsers : LastIndex.Configuration :=
  configurationOf (Some (onlyEntries [LastIndex.ObjectEntry (usersObject true)])) None.

End Sample.

(* ================================================================== *)
(** ** Notions for the traversal, the tree and the written file *)
(* ================================================================== *)

(** A node followed by its descendants, in document order. *)
Fixpoint preorder (n : Node) : list Node :=
  n :: match n with
       | CallExpression _ expression arguments =>
           (preorder expression
            ++ (fix all (l : list Node) : list Node :=
                  match l with
                  | [] => []
                  | c :: rest => preorder c ++ all rest
                  end) arguments)%list
       | Identifier _ _ => []
       | OtherNode _ children =>
           (fix all (l : list Node) : list Node :=
              match l with
              | [] => []
              | c :: rest => (preorder c ++ all rest)%list
              end) children
       end.

(** The descendants of a declaration with the given child nodes. *)
Definition descendants (children : list Node) : list Node :=
  flat_map preorder children.

(** The node of the definition object reached from a node by a path of
    keys that all hold objects. *)
Fixpoint lookupPath (path : list string) (o : Obj.t DefValue)
  : option (Obj.t DefValue) :=
  match path with
  | [] => Some o
  | k :: rest =>
      match Obj.get k o with
      | Some (VObject child) => lookupPath rest child
      | _ => None
      end
  end.

(** The handler of a route is resolved to a method with a body. *)
Definition resolved `{Externals} (gen : ApiTypesGenerator) (route : RouteJSON)
  : Prop :=
  exists reference file handlerData,
    handler route = HandlerReference reference
    /\ findControllerFile gen (parseBindingReference reference) = Some file
    /\ extractClassHandlerData file (parseBindingReference reference)
       = Some handlerData.



(** The lines [writeType] leaves in the file for an entry of the type map. *)
Definition typeBlock (key : string) (value : TypeEntry) : string :=
  "type " ++ key ++ " = {" ++ Emit.nl
  ++ "  request: " ++ request value ++ Emit.nl
  ++ "  response: " ++ response value ++ Emit.nl
  ++ "}" ++ Emit.nl.

(** The lines [writeRoute] leaves in the file for an entry of the array. *)
Definition routeBlock (route : RouteName.t) : string :=
  "  {" ++ Emit.nl
  ++ "    params: " ++ Emit.stringify (RouteName.params route) ++ "," ++ Emit.nl
  ++ "    name: '" ++ nameText (RouteName.name route) ++ "'," ++ Emit.nl
  ++ "    path: '" ++ RouteName.path route ++ "'," ++ Emit.nl
  ++ "    method: " ++ Emit.stringify (RouteName.method route) ++ "," ++ Emit.nl
  ++ "    types: {} as " ++ RouteName.types route ++ "," ++ Emit.nl
  ++ "  }," ++ Emit.nl.

(** The lines of the definition interface in the file. *)
Definition interfaceBlock (definition : Obj.t DefValue) : string :=
  "export interface ApiDefinition {" ++ Emit.nl
  ++ generateDefinitionInterface definition "  "
  ++ "}" ++ Emit.nl.

(* ================================================================== *)
(** ** Facts about objects *)
(* ================================================================== *)

Module ObjFacts.

Section Facts.
Context {V : Type}.
Implicit Types (o : Obj.t V) (k : string) (v : V).


Lemma get_replace_eq k v o :
  Obj.has k o = true -> Obj.get k (Obj.replace k v o) = Some v.
Proof.
  unfold Obj.has. induction o as [|[k' v'] rest IH]; simpl; [discriminate|].
  destruct (String.eqb k k') eqn:E; simpl.
  - now rewrite String.eqb_refl.
  - rewrite E. exact IH.
Qed.

Lemma get_replace_ne k k' v o :
  k' <> k -> Obj.get k' (Obj.replace k v o) = Obj.get k' o.
Proof.
  intros Hne. induction o as [|[k0 v0] rest IH]; simpl; [reflexivity|].
  destruct (String.eqb k k0) eqn:E; simpl.
  - apply String.eqb_eq in E. subst k0.
    destruct (String.eqb k' k) eqn:E'; [|reflexivity].
    apply String.eqb_eq in E'. contradiction.
  - destruct (String.eqb k' k0); [reflexivity | exact IH].
Qed.

Lemma get_insertIndex_eq n k v o :
  Obj.get k o = None -> Obj.get k (Obj.insertIndex n k v o) = Some v.
Proof.
  induction o as [|[k' v'] rest IH]; simpl; intros Hget.
  - now rewrite String.eqb_refl.
  - destruct (String.eqb k k') eqn:E; [discriminate|].
    destruct (Obj.arrayIndex k') as [m|]; simpl.
    + destruct (m <? n)%N; simpl.
      * rewrite E. now apply IH.
      * now rewrite String.eqb_refl.
    + now rewrite String.eqb_refl.
Qed.

Lemma get_insertIndex_ne n k k' v o :
  k' <> k -> Obj.get k' (Obj.insertIndex n k v o) = Obj.get k' o.
Proof.
  intros Hne.
  assert (Hk : String.eqb k' k = false) by now apply String.eqb_neq.
  induction o as [|[k0 v0] rest IH]; simpl.
  - now rewrite Hk.
  - destruct (Obj.arrayIndex k0) as [m|]; simpl.
    + destruct (m <? n)%N; simpl.
      * destruct (String.eqb k' k0); [reflexivity | exact IH].
      * now rewrite Hk.
    + now rewrite Hk.
Qed.

Lemma get_app k o o' :
  Obj.get k (o ++ o')%list =
  match Obj.get k o with Some v => Some v | None => Obj.get k o' end.
Proof.
  induction o as [|[k' v'] rest IH]; simpl; [reflexivity|].
  destruct (String.eqb k k'); [reflexivity | exact IH].
Qed.

(** Reading the property just assigned gives the assigned value. *)
Lemma get_set_eq k v o : Obj.get k (Obj.set k v o) = Some v.
Proof.
  unfold Obj.set. destruct (Obj.has k o) eqn:Hhas.
  - now apply get_replace_eq.
  - assert (Hnone : Obj.get k o = None).
    { unfold Obj.has in Hhas. destruct (Obj.get k o); [discriminate | reflexivity]. }
    destruct (Obj.arrayIndex k) as [n|].
    + now apply get_insertIndex_eq.
    + rewrite get_app, Hnone. simpl. now rewrite String.eqb_refl.
Qed.

(** An assignment leaves every other property as it was. *)
Lemma get_set_ne k k' v o : k' <> k -> Obj.get k' (Obj.set k v o) = Obj.get k' o.
Proof.
  intros Hne. unfold Obj.set. destruct (Obj.has k o).
  - now apply get_replace_ne.
  - destruct (Obj.arrayIndex k) as [n|].
    + now apply get_insertIndex_ne.
    + rewrite get_app. destruct (Obj.get k' o); [reflexivity|].
      simpl. apply String.eqb_neq in Hne. now rewrite Hne.
Qed.

Lemma has_set_eq k v o : Obj.has k (Obj.set k v o) = true.
Proof. unfold Obj.has. now rewrite get_set_eq. Qed.

(** Assignments never remove a property. *)
Lemma has_set_mono k k' v o :
  Obj.has k' o = true -> Obj.has k' (Obj.set k v o) = true.
Proof.
  intros Hhas. destruct (String.eqb k' k) eqn:E.
  - apply String.eqb_eq in E. subst. apply has_set_eq.
  - apply String.eqb_neq in E. unfold Obj.has in *. now rewrite get_set_ne.
Qed.

Lemma in_replace k v o kv :
  In kv (Obj.replace k v o) -> kv = (k, v) \/ In kv o.
Proof.
  induction o as [|[k' v'] rest IH]; simpl; [tauto|].
  destruct (String.eqb k k'); simpl; intros [Heq|Hin]; auto.
  destruct (IH Hin); auto.
Qed.

Lemma in_insertIndex n k v o kv :
  In kv (Obj.insertIndex n k v o) -> kv = (k, v) \/ In kv o.
Proof.
  induction o as [|[k' v'] rest IH]; simpl.
  - intros [Heq|[]]; auto.
  - destruct (Obj.arrayIndex k') as [m|].
    + destruct (m <? n)%N; simpl.
      * intros [Heq|Hin]; auto. destruct (IH Hin); auto.
      * intros [Heq|[Heq|Hin]]; auto.
    + simpl. intros [Heq|[Heq|Hin]]; auto.
Qed.

(** The properties after an assignment are the assigned one and old ones. *)
Lemma in_set k v o kv : In kv (Obj.set k v o) -> kv = (k, v) \/ In kv o.
Proof.
  unfold Obj.set. destruct (Obj.has k o).
  - apply in_replace.
  - destruct (Obj.arrayIndex k) as [n|].
    + apply in_insertIndex.
    + intros Hin. apply in_app_or in Hin. destruct Hin as [Hin|[Heq|[]]]; auto.
Qed.

Lemma get_in k v o : Obj.get k o = Some v -> In (k, v) o.
Proof.
  induction o as [|[k' v'] rest IH]; simpl; [discriminate|].
  destruct (String.eqb k k') eqn:E.
  - apply String.eqb_eq in E. intros [= ->]. subst. now left.
  - intros Hget. right. now apply IH.
Qed.

End Facts.

End ObjFacts.

(** Array-index keys come first, in numeric order; an assignment to an
    existing key keeps its place. *)
Example set_order :
  Obj.set "a" 5 (Obj.set "2" 4 (Obj.set "b" 3 (Obj.set "10" 2 (Obj.set "a" 1 Obj.empty))))
  = [("2", 4); ("10", 2); ("a", 5); ("b", 3)].
Proof. reflexivity. Qed.


(* ================================================================== *)
(** ** Strings and lists *)
(* ================================================================== *)

Lemma split_nonempty sep s : JS.split sep s <> [].
Proof.
  destruct s as [|c rest]; simpl; [discriminate|].
  destruct (Ascii.eqb c sep); [discriminate|].
  destruct (JS.split sep rest); discriminate.
Qed.

(** Joining the pieces of a split with the separator gives the text back. *)
Lemma join_split sep s : JS.join (String sep EmptyString) (JS.split sep s) = s.
Proof.
  unfold JS.join. induction s as [|c rest IH]; simpl; [reflexivity|].
  destruct (Ascii.eqb c sep) eqn:E.
  - apply Ascii.eqb_eq in E. subst c.
    pose proof (split_nonempty sep rest) as Hne.
    destruct (JS.split sep rest) as [|hd tl] eqn:Hs; [contradiction|].
    simpl. simpl in IH. now rewrite IH.
  - pose proof (split_nonempty sep rest) as Hne.
    destruct (JS.split sep rest) as [|hd tl] eqn:Hs; [contradiction|].
    simpl in *. destruct tl; simpl in *; now rewrite <- IH.
Qed.

Lemma includes_char_cons sep c s :
  JS.includes (String sep EmptyString) (String c s) = false ->
  Ascii.eqb c sep = false /\ JS.includes (String sep EmptyString) s = false.
Proof.
  simpl. destruct (ascii_dec sep c) as [->|Hne].
  - destruct s; discriminate.
  - simpl. intros Hrest. split; [|exact Hrest].
    apply Ascii.eqb_neq. congruence.
Qed.

Lemma split_free sep s :
  JS.includes (String sep EmptyString) s = false -> JS.split sep s = [s].
Proof.
  induction s as [|c s IH]; [reflexivity|].
  intros Hfree. apply includes_char_cons in Hfree. destruct Hfree as [Hc Hs].
  simpl. rewrite Hc. now rewrite (IH Hs).
Qed.

Lemma split_app sep s rest :
  JS.includes (String sep EmptyString) s = false ->
  JS.split sep (s ++ String sep rest) = s :: JS.split sep rest.
Proof.
  induction s as [|c s IH]; simpl.
  - now rewrite Ascii.eqb_refl.
  - intros Hfree. apply (includes_char_cons sep c s) in Hfree.
    destruct Hfree as [Hc Hs]. rewrite Hc. now rewrite (IH Hs).
Qed.

(** Splitting the join of separator-free pieces gives the pieces back. *)
Lemma split_join sep (l : list string) :
  l <> [] ->
  Forall (fun s => JS.includes (String sep EmptyString) s = false) l ->
  JS.split sep (JS.join (String sep EmptyString) l) = l.
Proof.
  unfold JS.join. intros Hne Hfree. induction Hfree as [|x rest Hx Hrest IH];
    [contradiction|].
  destruct rest as [|y rest'].
  - now apply split_free.
  - change (String.concat (String sep EmptyString) (x :: y :: rest'))
      with (x ++ String sep (String.concat (String sep EmptyString) (y :: rest'))).
    rewrite (split_app sep x _ Hx). f_equal. apply IH. discriminate.
Qed.

Lemma startsWith_dollar s : JS.startsWith "$" ("$" ++ s) = true.
Proof. unfold JS.startsWith. simpl. now destruct s. Qed.

Lemma filter_all {A} (p : A -> bool) (l : list A) :
  (forall x, In x l -> p x = true) -> List.filter p l = l.
Proof.
  induction l as [|x rest IH]; simpl; intros Hall; [reflexivity|].
  rewrite (Hall x (or_introl eq_refl)). f_equal. apply IH. auto.
Qed.

Lemma filter_map_swap {A B} (f : A -> B) (p : B -> bool) (q : A -> bool) (l : list A) :
  (forall x, p (f x) = q x) -> List.filter p (map f l) = map f (List.filter q l).
Proof.
  intros Hpq. induction l as [|x rest IH]; simpl; [reflexivity|].
  rewrite Hpq. destruct (q x); simpl; now rewrite IH.
Qed.

(* ================================================================== *)
(** ** The route filter *)
(* ================================================================== *)

Lemma matchesSome_existsb pat entries :
  matchesSome pat entries = existsb (entryMatches pat) entries.
Proof.
  induction entries as [|e rest IH]; simpl; [reflexivity|].
  destruct (entryMatches pat e); [reflexivity | exact IH].
Qed.

(** A pattern matches some entry: a string equal to it or a regular
    expression that accepts it. *)
Lemma matchesSome_iff pat entries :
  matchesSome pat entries = true <->
  exists e, In e entries /\
            (e = EntryString pat \/ exists re, e = EntryRegExp re /\ test re pat = true).
Proof.
  rewrite matchesSome_existsb, existsb_exists. split.
  - intros [e [Hin Hm]]. exists e. split; [exact Hin|].
    destruct e as [s|re]; simpl in Hm.
    + left. apply String.eqb_eq in Hm. now subst.
    + right. eauto.
  - intros [e [Hin [->|[re [-> Ht]]]]].
    + exists (EntryString pat). split; [exact Hin|]. simpl. apply String.eqb_refl.
    + exists (EntryRegExp re). split; [exact Hin | exact Ht].
Qed.

(** The filter keeps the routes that pass, in their order. *)
Lemma filterRoutes_passes config rs mode :
  filterRoutes config rs mode = List.filter (passes config mode) rs.
Proof.
  unfold filterRoutes, passes.
  destruct (modeConfig config mode) as [c|].
  - destruct (only c), (except c); try reflexivity.
    symmetry. now apply filter_all.
  - symmetry. now apply filter_all.
Qed.

Lemma filterRoutes_in config rs mode r :
  In r (filterRoutes config rs mode) <-> In r rs /\ passes config mode r = true.
Proof. rewrite filterRoutes_passes. apply filter_In. Qed.

(** *** Regular expressions that keep [lastIndex] *)

(** A route pattern matches an entry of a list: the entry is that very
    string, or a regular expression whose search from index 0 finds a
    match. *)
Local Abbreviation matchesEntry pat :=
  (fun e : LastIndex.Entry =>
     match e with
     | LastIndex.StringEntry s => String.eqb pat s
     | LastIndex.ObjectEntry re =>
         match LastIndex.exec re 0 pat with Some _ => true | None => false end
     end).

Lemma existsb_map {A B} (f : B -> bool) (g : A -> B) (l : list A) :
  existsb f (map g l) = existsb (fun x => f (g x)) l.
Proof. induction l as [|x rest IH]; simpl; [reflexivity | now rewrite IH]. Qed.

Lemma testObject_flagless re s store :
  LastIndex.keepsLastIndex re = false ->
  LastIndex.testObject re s store = (test (LastIndex.pureRegExp re) s, store).
Proof. intros Hflag. unfold LastIndex.testObject. now rewrite Hflag. Qed.

Lemma entryTest_flagless pat e store :
  LastIndex.flaglessEntry e = true ->
  LastIndex.entryTest pat e store = (matchesEntry pat e, store).
Proof.
  destruct e as [s|re]; simpl; intros Hflag; [reflexivity|].
  apply negb_true_iff in Hflag. now rewrite testObject_flagless.
Qed.

Lemma matchesSome_flagless pat entries store :
  forallb LastIndex.flaglessEntry entries = true ->
  LastIndex.matchesSome pat entries store
  = (existsb (matchesEntry pat) entries, store).
Proof.
  induction entries as [|e rest IH]; intros Hflag; [reflexivity|].
  simpl in Hflag. apply andb_true_iff in Hflag. destruct Hflag as [He Hrest].
  cbn [LastIndex.matchesSome existsb]. rewrite (entryTest_flagless pat e store He).
  destruct (matchesEntry pat e); [reflexivity | now apply IH].
Qed.

Lemma entryMatches_pure pat e :
  entryMatches pat (LastIndex.pureEntry e) = matchesEntry pat e.
Proof. now destruct e. Qed.

Lemma matchesSome_pure pat entries :
  matchesSome pat (map LastIndex.pureEntry entries)
  = existsb (matchesEntry pat) entries.
Proof.
  rewrite matchesSome_existsb, existsb_map. induction entries as [|e rest IH];
    [reflexivity|].
  simpl. now rewrite entryMatches_pure, IH.
Qed.

(** A callback that leaves [lastIndex] alone makes the filter of a list. *)
Lemma filterList_pure c (keep : RouteJSON -> bool) :
  (forall r store, LastIndex.keepRoute c r store = (keep r, store)) ->
  forall rs store, LastIndex.filterList c rs store = (List.filter keep rs, store).
Proof.
  intros Hkeep. induction rs as [|r rest IH]; intros store; [reflexivity|].
  simpl. rewrite Hkeep, IH. reflexivity.
Qed.

Lemma keepRoute_flagless c route store :
  LastIndex.flaglessFilter (LastIndex.onlyFilter c) = true ->
  LastIndex.flaglessFilter (LastIndex.exceptFilter c) = true ->
  LastIndex.keepRoute c route store = (keepRoute (LastIndex.pureMode c) route, store).
Proof.
  unfold LastIndex.keepRoute, keepRoute, LastIndex.pureMode. simpl.
  destruct (LastIndex.onlyFilter c) as [[f|entries]|];
    destruct (LastIndex.exceptFilter c) as [[g|entries']|]; simpl;
    intros Honly Hexcept; try reflexivity;
    rewrite matchesSome_flagless by assumption; now rewrite matchesSome_pure.
Qed.

Lemma modeConfig_pure config mode :
  modeConfig (LastIndex.pureConfig config) mode
  = option_map LastIndex.pureMode (LastIndex.modeFilters config mode).
Proof.
  unfold modeConfig, LastIndex.modeFilters, LastIndex.pureConfig. simpl.
  destruct (LastIndex.codegenFilters config) as [c|]; [|reflexivity].
  now destruct mode.
Qed.

(** Without the [g] and [y] flags the filter is [filterRoutes] on the
    configuration read as a pure one, and no [lastIndex] is written. *)
Lemma filterRoutes_flagless config rs mode store :
  LastIndex.flagless config mode = true ->
  LastIndex.filterRoutes config rs mode store
  = (filterRoutes (LastIndex.pureConfig config) rs mode, store).
Proof.
  unfold LastIndex.flagless, LastIndex.filterRoutes, filterRoutes.
  rewrite modeConfig_pure.
  destruct (LastIndex.modeFilters config mode) as [c|]; [|reflexivity].
  intros Hflag. apply andb_true_iff in Hflag. destruct Hflag as [Honly Hexcept].
  simpl.
  assert (Hlist : LastIndex.filterList c rs store
                  = (List.filter (keepRoute (LastIndex.pureMode c)) rs, store)).
  { apply filterList_pure. intros r store'. now apply keepRoute_flagless. }
  destruct (LastIndex.onlyFilter c) as [[f|entries]|];
    destruct (LastIndex.exceptFilter c) as [[g|entries']|]; simpl;
    solve [exact Hlist | reflexivity].
Qed.

(** The filter drops routes and does nothing else to the list, whatever the
    flags. *)
Lemma filterList_sublist c :
  forall rs store, sublist (fst (LastIndex.filterList c rs store)) rs.
Proof.
  induction rs as [|r rest IH]; intros store; simpl; [constructor|].
  destruct (LastIndex.keepRoute c r store) as [keep store1].
  specialize (IH store1).
  destruct (LastIndex.filterList c rest store1) as [kept store2]. simpl in *.
  destruct keep; now constructor.
Qed.

(** With the [g] flag the fate of a route depends on the routes before it:
    of three routes with the pattern [/users], [only: [/^\/users/g]] keeps
    the first and the third, and of the two it has kept it keeps the first
    alone when it is applied once more. *)
Lemma global_flag_skips_every_other_route :
  LastIndex.filterRoutes Sample.onlyGlobalUsers
                         [Sample.users; Sample.users; Sample.users] Definitions
                         (∅ : gmap nat nat)
  = ([Sample.users; Sample.users], <[0 := 6]> (∅ : gmap nat nat))
  /\ fst (LastIndex.filterRoutes Sample.onlyGlobalUsers [Sample.users; Sample.users]
                                 Definitions (<[0 := 6]> (∅ : gmap nat nat)))
     = [Sample.users].
Proof. split; reflexivity. Qed.

(** C3, as stated, fails: with an [only] list and a predicate function as
    [except], both are present and the predicate decides.  The route
    [/admin] matches no entry of the [only] list and is kept. *)
Lemma only_list_overridden_by_except_function :
  only Sample.onlyListExceptFunction = Some (FilterList [EntryString "/users"])
  /\ In Sample.admin
        (filterRoutes (Sample.configOf (Some Sample.onlyListExceptFunction) None)
                      [Sample.users; Sample.admin] Definitions)
  /\ existsb (entryMatches (pattern Sample.admin)) [EntryString "/users"] = false.
Proof. split; [reflexivity|]. split; [simpl; auto | reflexivity]. Qed.

(** C3 (amended): the route filter returns its input unchanged when the mode
    has no filter configuration, or one with neither [only] nor [except].
    When neither is a predicate function and the list that decides holds no
    regular expression with the [g] or the [y] flag: with an [only] list a
    route is kept iff its pattern matches some entry, whatever [except]
    lists; with an [except] list alone a route is kept iff its pattern
    matches no entry.  An entry is matched when it is the very string of the
    pattern or a regular expression that finds a match in it.  A predicate
    function comes before any list: the one given as [only] decides,
    otherwise the one given as [except] decides, also next to an [only]
    list.  The order of the routes is kept, and no [lastIndex] is written.
    In all these cases the filter is [filterRoutes] on the configuration
    read as a pure one.  With [only: [/^\/users/]] the routes [/users] and
    [/admin] filter to [/users] alone, and so they do with
    [except: ['/admin']]. *)
Theorem filterRoutes_contract :
  (forall config rs mode store,
      LastIndex.modeFilters config mode = None ->
      LastIndex.filterRoutes config rs mode store = (rs, store))
  /\ (forall config rs mode store c,
        LastIndex.modeFilters config mode = Some c ->
        LastIndex.onlyFilter c = None ->
        LastIndex.exceptFilter c = None ->
        LastIndex.filterRoutes config rs mode store = (rs, store))
  /\ (forall config rs mode store c entries,
        LastIndex.modeFilters config mode = Some c ->
        LastIndex.onlyFilter c = Some (LastIndex.EntriesFilter entries) ->
        LastIndex.isPredicate (LastIndex.exceptFilter c) = false ->
        forallb LastIndex.flaglessEntry entries = true ->
        LastIndex.filterRoutes config rs mode store
        = (List.filter (fun r => existsb (matchesEntry (pattern r)) entries) rs, store))
  /\ (forall config rs mode store c entries,
        LastIndex.modeFilters config mode = Some c ->
        LastIndex.onlyFilter c = None ->
        LastIndex.exceptFilter c = Some (LastIndex.EntriesFilter entries) ->
        forallb LastIndex.flaglessEntry entries = true ->
        LastIndex.filterRoutes config rs mode store
        = (List.filter (fun r => negb (existsb (matchesEntry (pattern r)) entries)) rs,
           store))
  /\ (forall config rs mode store c f,
        LastIndex.modeFilters config mode = Some c ->
        LastIndex.onlyFilter c = Some (LastIndex.PredicateFilter f) ->
        LastIndex.filterRoutes config rs mode store = (List.filter f rs, store))
  /\ (forall config rs mode store c g,
        LastIndex.modeFilters config mode = Some c ->
        LastIndex.isPredicate (LastIndex.onlyFilter c) = false ->
        LastIndex.exceptFilter c = Some (LastIndex.PredicateFilter g) ->
        LastIndex.filterRoutes config rs mode store
        = (List.filter (fun r => negb (g r)) rs, store))
  /\ (forall config rs mode store,
        LastIndex.flagless config mode = true ->
        LastIndex.filterRoutes config rs mode store
        = (filterRoutes (LastIndex.pureConfig config) rs mode, store))
  /\ (forall store,
        LastIndex.filterRoutes
          (Sample.configurationOf
             (Some (Sample.onlyEntries [LastIndex.ObjectEntry (Sample.usersObject false)]))
             None)
          [Sample.users; Sample.admin] Definitions store
        = ([Sample.users], store))
  /\ (forall store,
        LastIndex.filterRoutes
          (Sample.configurationOf
             (Some (Sample.exceptEntries [LastIndex.StringEntry "/admin"])) None)
          [Sample.users; Sample.admin] Definitions store
        = ([Sample.users], store)).
Proof.
  split; [|split; [|split; [|split; [|split; [|split; [|split; [|split]]]]]]].
  - intros config rs mode store Hmode. unfold LastIndex.filterRoutes.
    now rewrite Hmode.
  - intros config rs mode store c Hmode Honly Hexcept. unfold LastIndex.filterRoutes.
    now rewrite Hmode, Honly, Hexcept.
  - intros config rs mode store c entries Hmode Honly Hexcept Hflag.
    unfold LastIndex.filterRoutes. rewrite Hmode, Honly.
    assert (Hlist : LastIndex.filterList c rs store
                    = (List.filter
                         (fun r => existsb (matchesEntry (pattern r)) entries) rs,
                       store)).
    { apply filterList_pure. intros r store'. unfold LastIndex.keepRoute.
      rewrite Honly.
      destruct (LastIndex.exceptFilter c) as [[g|entries']|];
        [discriminate Hexcept | |]; now apply matchesSome_flagless. }
    now destruct (LastIndex.exceptFilter c).
  - intros config rs mode store c entries Hmode Honly Hexcept Hflag.
    unfold LastIndex.filterRoutes. rewrite Hmode, Honly, Hexcept.
    apply filterList_pure. intros r store'. unfold LastIndex.keepRoute.
    rewrite Honly, Hexcept. now rewrite matchesSome_flagless.
  - intros config rs mode store c f Hmode Honly.
    unfold LastIndex.filterRoutes. rewrite Hmode, Honly.
    assert (Hlist : LastIndex.filterList c rs store = (List.filter f rs, store)).
    { apply filterList_pure. intros r store'. unfold LastIndex.keepRoute.
      now rewrite Honly. }
    now destruct (LastIndex.exceptFilter c).
  - intros config rs mode store c g Hmode Honly Hexcept.
    unfold LastIndex.filterRoutes. rewrite Hmode, Hexcept.
    assert (Hlist : LastIndex.filterList c rs store
                    = (List.filter (fun r => negb (g r)) rs, store)).
    { apply filterList_pure. intros r store'. unfold LastIndex.keepRoute.
      rewrite Hexcept.
      now destruct (LastIndex.onlyFilter c) as [[f|entries]|]. }
    now destruct (LastIndex.onlyFilter c).
  - intros config rs mode store Hflag. now apply filterRoutes_flagless.
  - intros store. reflexivity.
  - intros store. reflexivity.
Qed.

(** An [except] list alone, for the mode [routes], run through the
    contract. *)
Lemma filterRoutes_contract_witness :
  LastIndex.filterRoutes
    (Sample.configurationOf
       None (Some (Sample.exceptEntries [LastIndex.StringEntry "/admin"])))
    [Sample.admin; Sample.users; Sample.health] Routes (∅ : gmap nat nat)
  = ([Sample.users; Sample.health], (∅ : gmap nat nat)).
Proof.
  rewrite (proj1 (proj2 (proj2 (proj2 filterRoutes_contract)))
                 (Sample.configurationOf
                    None (Some (Sample.exceptEntries [LastIndex.StringEntry "/admin"])))
                 [Sample.admin; Sample.users; Sample.health] Routes ∅
                 (Sample.exceptEntries [LastIndex.StringEntry "/admin"])
                 [LastIndex.StringEntry "/admin"] eq_refl eq_refl eq_refl eq_refl).
  reflexivity.
Defined.

(* ================================================================== *)
(** ** Type names *)
(* ================================================================== *)

(** C2: the type name is a function of the pattern and the methods alone:
    the PascalCase of the non-empty segments of the pattern, split on the
    slash and joined by spaces with every segment that starts with a colon
    replaced by [id], followed by the PascalCase of the methods joined by
    spaces, HEAD included.  For the pattern made of given slash-free
    segments these are the segments used.  [/users/:id/comments/:commentId]
    with [GET] gives [UsersIdCommentsIdGet]; [/users] with [GET, HEAD]
    gives [UsersGetHead]. *)
Theorem generateTypeName_synthesis :
  (forall (E : Externals) (pat : string) (ms : list string),
      generateTypeName pat ms =
      pascalCase
        (JS.join " "
           (map (fun segment => if String.prefix ":" segment then "id" else segment)
                (List.filter (fun segment => negb (String.eqb segment EmptyString))
                             (JS.split "/" pat))))
      ++ pascalCase (JS.join " " ms))
  /\ (forall (E : Externals) (segments ms : list string),
        Forall (fun segment => JS.includes "/" segment = false) segments ->
        generateTypeName ("/" ++ JS.join "/" segments) ms =
        pascalCase
          (JS.join " "
             (map (fun segment => if String.prefix ":" segment then "id" else segment)
                  (List.filter (fun segment => negb (String.eqb segment EmptyString))
                               segments)))
        ++ pascalCase (JS.join " " ms))
  /\ @generateTypeName Model.externals "/users/:id/comments/:commentId" ["GET"]
     = "UsersIdCommentsIdGet"
  /\ @generateTypeName Model.externals "/users" ["GET"; "HEAD"] = "UsersGetHead".
Proof.
  split; [reflexivity|]. split; [|split; reflexivity].
  intros E segments ms Hfree. unfold generateTypeName, patternSegments.
  do 3 f_equal. fold (JS.truthy).
  change (JS.split "/" ("/" ++ JS.join "/" segments))
    with (EmptyString :: JS.split "/" (JS.join "/" segments)).
  simpl. destruct segments as [|segment rest]; [reflexivity|].
  rewrite split_join; [reflexivity | discriminate | exact Hfree].
Qed.

Lemma generateTypeName_synthesis_witness :
  @generateTypeName Model.externals "/users/:id/comments/:commentId" ["GET"]
  = Model.pascalCase "users id comments id" ++ Model.pascalCase "GET".
Proof.
  apply (proj1 (proj2 generateTypeName_synthesis) Model.externals
               ["users"; ":id"; "comments"; ":commentId"] ["GET"]).
  repeat constructor.
Defined.

(* ================================================================== *)
(** ** The named-routes array *)
(* ================================================================== *)

Lemma generateRoutesNameArray_map `{Externals} rs types :
  generateRoutesNameArray rs types =
  map (routeNameEntry types) (List.filter (fun r => hasName (name r)) rs).
Proof. unfold generateRoutesNameArray. now apply filter_map_swap. Qed.

Lemma generateRoutesNameArray_in `{Externals} rs types e :
  In e (generateRoutesNameArray rs types) <->
  exists r, In r rs /\ hasName (name r) = true /\ e = routeNameEntry types r.
Proof.
  rewrite generateRoutesNameArray_map, in_map_iff. split.
  - intros [r [<- Hin]]. apply filter_In in Hin. destruct Hin. eauto.
  - intros [r [Hin [Hn ->]]]. exists r. split; [reflexivity|].
    apply filter_In. auto.
Qed.

(** In the pattern parser of [Model], the dynamic nodes of a pattern are as
    many as its segments that start with a colon or a star. *)
Lemma model_dynamic_nodes pat :
  pat <> "/" ->
  length (List.filter isDynamic (Model.matchitParse pat)) =
  length (List.filter (fun segment => JS.startsWith ":" segment || JS.startsWith "*" segment)
                      (patternSegments pat)).
Proof.
  intros Hroot. unfold Model.matchitParse, patternSegments.
  destruct (String.eqb pat "/") eqn:E; [apply String.eqb_eq in E; contradiction|].
  induction (List.filter JS.truthy (JS.split "/" pat)) as [|segment rest IH];
    simpl; [reflexivity|].
  assert (Hseg : isDynamic (Model.parseSegment segment) =
                 JS.startsWith ":" segment || JS.startsWith "*" segment).
  { destruct segment as [|[[] [] [] [] [] [] [] []] s]; try reflexivity;
      unfold Model.parseSegment, isDynamic, JS.startsWith; simpl;
      try destruct (JS.includes "?" s); destruct s; reflexivity. }
  rewrite Hseg.
  destruct (JS.startsWith ":" segment || JS.startsWith "*" segment); simpl;
    now rewrite IH.
Qed.

(** C5: the params of an entry of the named-routes array are the values of
    the dynamic nodes the pattern parser gives for the pattern of its
    route, in the order of the pattern, so as many as there are dynamic
    nodes; with the parser of [Model] that is the number of segments of the
    pattern that start with a colon or a star.
    [/users/:id/comments/:commentId] gives [id, commentId]. *)
Theorem params_are_dynamic_segments :
  (forall (E : Externals) (rs : list RouteJSON) (types : Obj.t TypeEntry) e,
      In e (generateRoutesNameArray rs types) ->
      exists r,
        In r rs
        /\ RouteName.path e = pattern r
        /\ RouteName.params e =
           map val (List.filter isDynamic (matchitParse (pattern r)))
        /\ length (RouteName.params e) =
           length (List.filter isDynamic (matchitParse (pattern r))))
  /\ (forall (rs : list RouteJSON) (types : Obj.t TypeEntry) e,
        In e (generateRoutesNameArray (H := Model.externals) rs types) ->
        RouteName.path e <> "/" ->
        length (RouteName.params e) =
        length (List.filter
                  (fun segment => JS.startsWith ":" segment || JS.startsWith "*" segment)
                  (patternSegments (RouteName.path e))))
  /\ map RouteName.params
         (generateRoutesNameArray (H := Model.externals) [Sample.commentsShow] [])
     = [["id"; "commentId"]].
Proof.
  split; [|split; [|reflexivity]].
  - intros E rs types e Hin.
    apply generateRoutesNameArray_in in Hin. destruct Hin as [r [Hin [_ ->]]].
    exists r. split; [exact Hin|]. split; [reflexivity|].
    split; [reflexivity|]. simpl. apply length_map.
  - intros rs types e Hin Hroot.
    apply generateRoutesNameArray_in in Hin. destruct Hin as [r [Hin [_ ->]]].
    simpl in *. rewrite length_map. now apply model_dynamic_nodes.
Qed.

Lemma params_are_dynamic_segments_witness :
  exists r,
    In r [Sample.usersUpdate]
    /\ RouteName.path (routeNameEntry (H := Model.externals) [] Sample.usersUpdate)
       = pattern r
    /\ RouteName.params (routeNameEntry (H := Model.externals) [] Sample.usersUpdate)
       = map val (List.filter isDynamic (Model.matchitParse (pattern r)))
    /\ length (RouteName.params
                 (routeNameEntry (H := Model.externals) [] Sample.usersUpdate))
       = length (List.filter isDynamic (Model.matchitParse (pattern r))).
Proof.
  apply (proj1 params_are_dynamic_segments Model.externals [Sample.usersUpdate] []).
  simpl. auto.
Defined.

(* ================================================================== *)
(** ** The definition object *)
(* ================================================================== *)





Section Tree.
Context `{Externals}.




End Tree.

(* ================================================================== *)
(** ** One route at a time *)
(* ================================================================== *)

Section Steps.
Context `{Externals}.
Variable gen : ApiTypesGenerator.

(** The turn of the loop for a route whose handler is resolved. *)
Lemma processRoute_resolved st route reference file handlerData :
  handler route = HandlerReference reference ->
  findControllerFile gen (parseBindingReference reference) = Some file ->
  extractClassHandlerData file (parseBindingReference reference) = Some handlerData ->
  processRoute gen st route =
  let typeName := generateTypeName (pattern route) (methods route) in
  let* definition' :=
    walkSegments (patternSegments (pattern route)) typeName (verbKeys route)
                 (definition st) in
  Ok {| definition := definition';
        typesByPattern :=
          match patternSegments (pattern route) with
          | [] => typesByPattern st
          | _ => Obj.set typeName
                   (typeEntryOf gen file (parseBindingReference reference)
                                (snd (extractRequest gen handlerData)))
                   (typesByPattern st)
          end;
        logs := ((logs st ++ [Info ("Generating types for " ++ pattern route)])
                 ++ fst (extractRequest gen handlerData))%list |}.
Proof.
  intros Hh Hfile Hdata. unfold processRoute. rewrite Hh, Hfile, Hdata.
  destruct (extractRequest gen handlerData) as [warnings schemaImport].
  reflexivity.
Qed.



(** A turn of the loop reads the two accumulators, not the log. *)
Lemma processRoute_sameData a b route :
  sameData a b -> sameOutcome (processRoute gen a route) (processRoute gen b route).
Proof.
  intros [Hdef Htypes]. unfold processRoute.
  destruct (handler route) as [|reference]; [now split|].
  destruct (findControllerFile gen (parseBindingReference reference)) as [file|];
    [|now split].
  destruct (extractClassHandlerData file (parseBindingReference reference))
    as [handlerData|]; [|now split].
  destruct (extractRequest gen handlerData) as [warnings schemaImport].
  rewrite Hdef, Htypes.
  destruct (walkSegments (patternSegments (pattern route))
              (generateTypeName (pattern route) (methods route))
              (verbKeys route) (definition b)) as [definition'|e]; simpl.
  - now split.
  - reflexivity.
Qed.

Lemma processRoutes_sameData rs :
  forall a b,
    sameData a b -> sameOutcome (processRoutes gen a rs) (processRoutes gen b rs).
Proof.
  induction rs as [|route rest IH]; simpl; intros a b Hsame; [exact Hsame|].
  pose proof (processRoute_sameData a b route Hsame) as Hstep.
  destruct (processRoute gen a route) as [a'|e], (processRoute gen b route) as [b'|e'];
    simpl in *; try contradiction.
  - now apply IH.
  - exact Hstep.
Qed.

(** The verb keys all start with a dollar sign, so none of them is the
    text [head] and the filter removes nothing. *)
Lemma verbKeys_all route :
  verbKeys route = map (fun m => "$" ++ JS.toLowerCase m) (methods route).
Proof.
  unfold verbKeys. apply filter_all. intros m Hin.
  apply in_map_iff in Hin. destruct Hin as [m0 [<- _]]. reflexivity.
Qed.

Lemma verbKeys_head route : In "HEAD" (methods route) -> In "$head" (verbKeys route).
Proof.
  intros Hin. rewrite verbKeys_all.
  apply in_map_iff. exists "HEAD". split; [reflexivity | exact Hin].
Qed.

End Steps.

(* ================================================================== *)
(** ** Runs that do not raise *)
(* ================================================================== *)

Lemma stringsUnderDollar_object (o : Obj.t DefValue) :
  stringsUnderDollar (VObject o) = true <->
  forall k v, In (k, v) o ->
    match v with
    | VString _ => JS.startsWith "$" k = true
    | VObject _ => True
    end /\ stringsUnderDollar v = true.
Proof.
  induction o as [|[k0 v0] rest IH].
  - simpl. split; [intros _ k v []|reflexivity].
  - change (stringsUnderDollar (VObject ((k0, v0) :: rest)))
      with (match v0 with
            | VString _ => JS.startsWith "$" k0
            | VObject _ => true
            end && stringsUnderDollar v0 && stringsUnderDollar (VObject rest)).
    rewrite !andb_true_iff, IH. split.
    + intros [[Hk Hv] Hrest] k v [[= <- <-]|Hin]; [|auto].
      split; [destruct v0; auto | exact Hv].
    + intros Hall. split; [split|].
      * destruct (Hall k0 v0 (or_introl eq_refl)) as [Hk _]. destruct v0; auto.
      * apply (Hall k0 v0 (or_introl eq_refl)).
      * intros k v Hin. apply Hall. now right.
Qed.

Section Totality.
Context `{Externals}.
Variable gen : ApiTypesGenerator.

Local Abbreviation wf o := (stringsUnderDollar (VObject o) = true).

Lemma wf_set_object k (child o : Obj.t DefValue) :
  wf o -> wf child -> wf (Obj.set k (VObject child) o).
Proof.
  intros Ho Hchild. apply stringsUnderDollar_object. intros k' v' Hin.
  apply ObjFacts.in_set in Hin. destruct Hin as [[= -> ->]|Hin]; [now split|].
  revert k' v' Hin. now apply stringsUnderDollar_object.
Qed.

Lemma wf_set_string k s (o : Obj.t DefValue) :
  wf o -> JS.startsWith "$" k = true -> wf (Obj.set k (VString s) o).
Proof.
  intros Ho Hk. apply stringsUnderDollar_object. intros k' v' Hin.
  apply ObjFacts.in_set in Hin. destruct Hin as [[= -> ->]|Hin]; [now split|].
  revert k' v' Hin. now apply stringsUnderDollar_object.
Qed.

Lemma wf_get_object k (o child : Obj.t DefValue) :
  wf o -> Obj.get k o = Some (VObject child) -> wf child.
Proof.
  intros Ho Hget. apply ObjFacts.get_in in Hget.
  now apply (proj1 (stringsUnderDollar_object o) Ho k (VObject child)).
Qed.

Lemma wf_get_string k s (o : Obj.t DefValue) :
  wf o -> Obj.get k o = Some (VString s) -> JS.startsWith "$" k = true.
Proof.
  intros Ho Hget. apply ObjFacts.get_in in Hget.
  now apply (proj1 (stringsUnderDollar_object o) Ho k (VString s)).
Qed.

Lemma wf_assignLeaf typeName verbs (o : Obj.t DefValue) :
  wf o -> Forall (fun m => JS.startsWith "$" m = true) verbs ->
  wf (assignLeaf typeName verbs o).
Proof.
  intros Ho Hverbs. unfold assignLeaf.
  assert (Hstart : wf (Obj.set "$url" (VObject Obj.empty) o))
    by now apply wf_set_object.
  revert Hstart. generalize (Obj.set "$url" (VObject Obj.empty) o).
  induction Hverbs as [|m rest Hm Hrest IH]; simpl; intros level Hlevel;
    [exact Hlevel|].
  apply IH. now apply wf_set_string.
Qed.

Lemma verbKeys_dollar route :
  Forall (fun m => JS.startsWith "$" m = true) (verbKeys route).
Proof.
  rewrite verbKeys_all. apply List.Forall_forall. intros m Hin.
  apply in_map_iff in Hin. destruct Hin as [m0 [<- _]]. apply startsWith_dollar.
Qed.

(** The walk goes through when no segment can meet a stored type name. *)
Lemma walkSegments_total typeName verbs segments :
  Forall (fun m => JS.startsWith "$" m = true) verbs ->
  Forall (fun segment => JS.startsWith "$" segment = false
                         /\ Obj.inherited segment = false) segments ->
  forall o : Obj.t DefValue,
    wf o -> exists o', walkSegments segments typeName verbs o = Ok o' /\ wf o'.
Proof.
  intros Hverbs Hsegments.
  induction Hsegments as [|segment rest [Hsegment Hown] Hrest IH]; intros o Ho; simpl.
  - eauto.
  - assert (Hlevel : wf (ensureLevel segment o)
                     /\ exists child,
                          Obj.get segment (ensureLevel segment o) = Some (VObject child)
                          /\ wf child).
    { unfold ensureLevel. destruct (Obj.get segment o) as [[t|child]|] eqn:Hget.
      - apply (wf_get_string _ _ _ Ho) in Hget. congruence.
      - split; [exact Ho|]. exists child. split; [exact Hget|].
        now apply wf_get_object with segment o.
      - rewrite Hown. split; [now apply wf_set_object|]. exists Obj.empty.
        split; [apply ObjFacts.get_set_eq | reflexivity]. }
    destruct Hlevel as [Hlevel [child [Hget Hchild]]]. rewrite Hget.
    destruct rest as [|next rest'].
    + eexists. split; [reflexivity|].
      apply wf_set_object; [exact Hlevel|]. now apply wf_assignLeaf.
    + destruct (IH child Hchild) as [child' [Hwalk Hchild']]. rewrite Hwalk. simpl.
      eexists. split; [reflexivity|]. now apply wf_set_object.
Qed.

Lemma processRoute_total st route :
  wf (definition st) -> plainSegments route ->
  exists st', processRoute gen st route = Ok st' /\ wf (definition st').
Proof.
  intros Hst Hplain. unfold processRoute.
  destruct (handler route) as [|reference]; [eauto|].
  destruct (findControllerFile gen (parseBindingReference reference)) as [file|];
    [|eauto].
  destruct (extractClassHandlerData file (parseBindingReference reference))
    as [handlerData|]; [|eauto].
  destruct (extractRequest gen handlerData) as [warnings schemaImport].
  destruct (walkSegments_total
              (generateTypeName (pattern route) (methods route)) (verbKeys route)
              (patternSegments (pattern route)) (verbKeys_dollar route) Hplain
              (definition st) Hst) as [definition1 [Hwalk Hwf]].
  rewrite Hwalk. simpl. eauto.
Qed.

End Totality.

Section Runs.
Context `{Externals}.
Variable gen : ApiTypesGenerator.

Lemma processRoutes_app rs rs' :
  forall st,
    processRoutes gen st (rs ++ rs') =
    let* st' := processRoutes gen st rs in processRoutes gen st' rs'.
Proof.
  induction rs as [|route rest IH]; simpl; intros st; [reflexivity|].
  destruct (processRoute gen st route) as [st1|e]; simpl; [apply IH | reflexivity].
Qed.

(** Without dollar-sign segments and segments named like inherited members
    the loop runs to its end. *)
Lemma processRoutes_total rs :
  (forall r, In r rs -> plainSegments r) ->
  forall st,
    stringsUnderDollar (VObject (definition st)) = true ->
    exists st', processRoutes gen st rs = Ok st'
                /\ stringsUnderDollar (VObject (definition st')) = true.
Proof.
  induction rs as [|route rest IH]; simpl; intros Hplain st Hst; [eauto|].
  destruct (processRoute_total gen st route Hst (Hplain route (or_introl eq_refl)))
    as [st1 [Hstep Hst1]].
  rewrite Hstep. simpl. apply IH; auto.
Qed.

Lemma generated_total :
  (forall r, In r (gen_routes gen) -> plainSegments r) ->
  exists g, generated gen = Ok g.
Proof.
  intros Hplain. unfold generated.
  destruct (processRoutes_total (definitionRoutes gen)) with (st := initialState)
    as [st [Hrun _]].
  - intros r Hin. apply Hplain. unfold definitionRoutes in Hin.
    now apply filterRoutes_in in Hin.
  - reflexivity.
  - rewrite Hrun. simpl. eauto.
Qed.

(** A turn of the loop writes the type map under the type name of its
    route only, and not at all for an inline function. *)
Lemma processRoute_types_other st route st' k :
  processRoute gen st route = Ok st' ->
  handler route = HandlerFunction
  \/ generateTypeName (pattern route) (methods route) <> k ->
  Obj.get k (typesByPattern st') = Obj.get k (typesByPattern st).
Proof.
  unfold processRoute. intros Hstep Hother.
  destruct (handler route) as [|reference]; [now injection Hstep as <-|].
  destruct Hother as [Hfn|Hother]; [discriminate|].
  destruct (findControllerFile gen (parseBindingReference reference)) as [file|];
    [|now injection Hstep as <-].
  destruct (extractClassHandlerData file (parseBindingReference reference))
    as [handlerData|]; [|now injection Hstep as <-].
  destruct (extractRequest gen handlerData) as [warnings schemaImport].
  destruct (walkSegments (patternSegments (pattern route))
              (generateTypeName (pattern route) (methods route))
              (verbKeys route) (definition st)) as [definition'|e];
    simpl in Hstep; [|discriminate].
  injection Hstep as <-. simpl.
  destruct (patternSegments (pattern route)); [reflexivity|].
  apply ObjFacts.get_set_ne. congruence.
Qed.

Lemma processRoutes_types_other rs k :
  (forall r, In r rs ->
             handler r = HandlerFunction
             \/ generateTypeName (pattern r) (methods r) <> k) ->
  forall st st',
    processRoutes gen st rs = Ok st' ->
    Obj.get k (typesByPattern st') = Obj.get k (typesByPattern st).
Proof.
  induction rs as [|route rest IH]; simpl; intros Hother st st' Hrun.
  - now injection Hrun as <-.
  - destruct (processRoute gen st route) as [st1|e] eqn:Hstep;
      simpl in Hrun; [|discriminate].
    rewrite (IH (fun r Hin => Hother r (or_intror Hin)) st1 st' Hrun).
    apply processRoute_types_other with route; auto.
Qed.


(** Without a resolved schema the extraction gives no type reference. *)
Lemma extractRequest_unresolved handlerData text expression arguments :
  forEachDescendant (methodChildren (hd_method handlerData))
  = Some (CallExpression text expression arguments) ->
  schemaResolves arguments = false ->
  snd (extractRequest gen handlerData) = None.
Proof.
  intros Hcall Hschema. unfold extractRequest. rewrite Hcall.
  destruct arguments as [|[t e a|t [|implementation rest]|t c] others];
    try reflexivity.
  discriminate Hschema.
Qed.

(** The turn of the loop for a route whose handler is not resolved. *)
Lemma processRoute_unresolvable st route reference :
  handler route = HandlerReference reference ->
  unresolvable gen reference ->
  exists st',
    processRoute gen st route = Ok st'
    /\ logs st'
       = (logs st
          ++ match findControllerFile gen (parseBindingReference reference) with
             | None =>
                 [Warning ("Unable to find the controller file for " ++ pattern route)]
             | Some _ =>
                 [Info ("Generating types for " ++ pattern route);
                  Warning ("Unable to find the controller method for "
                           ++ pattern route)]
             end)%list
    /\ definition st' = definition st
    /\ typesByPattern st' = typesByPattern st.
Proof.
  intros Hh Hun. unfold processRoute. rewrite Hh.
  destruct Hun as [Hfile|[file [Hfile Hclass]]]; rewrite Hfile.
  - eexists. split; [reflexivity|]. now repeat split.
  - assert (Hdata : extractClassHandlerData file (parseBindingReference reference)
                    = None).
    { unfold extractClassHandlerData.
      destruct Hclass as [Hnone|[classDef [Hsome Hmethod]]].
      - now rewrite Hnone.
      - now rewrite Hsome, Hmethod. }
    rewrite Hdata. eexists. split; [reflexivity|]. simpl.
    rewrite <- List.app_assoc. now repeat split.
Qed.

(** A turn of the loop, and so the loop, only appends to the log. *)
Lemma processRoute_logs_grow st route st' :
  processRoute gen st route = Ok st' ->
  exists lines, logs st' = (logs st ++ lines)%list.
Proof.
  unfold processRoute. intros Hstep.
  destruct (handler route) as [|reference].
  { injection Hstep as <-. exists []. now rewrite app_nil_r. }
  destruct (findControllerFile gen (parseBindingReference reference)) as [file|].
  2:{ injection Hstep as <-. eexists. reflexivity. }
  destruct (extractClassHandlerData file (parseBindingReference reference))
    as [handlerData|].
  2:{ injection Hstep as <-. eexists. simpl. rewrite <- List.app_assoc. reflexivity. }
  destruct (extractRequest gen handlerData) as [warnings schemaImport].
  destruct (walkSegments (patternSegments (pattern route))
              (generateTypeName (pattern route) (methods route))
              (verbKeys route) (definition st)) as [definition'|e];
    simpl in Hstep; [|discriminate].
  injection Hstep as <-. simpl. eexists. rewrite <- List.app_assoc. reflexivity.
Qed.

Lemma processRoutes_logs_grow rs :
  forall st st',
    processRoutes gen st rs = Ok st' ->
    exists lines, logs st' = (logs st ++ lines)%list.
Proof.
  induction rs as [|route rest IH]; simpl; intros st st' Hrun.
  - injection Hrun as <-. exists []. now rewrite app_nil_r.
  - destruct (processRoute gen st route) as [st1|e] eqn:Hstep;
      simpl in Hrun; [|discriminate].
    destruct (processRoute_logs_grow st route st1 Hstep) as [lines Hlines].
    destruct (IH st1 st' Hrun) as [more Hmore].
    exists (lines ++ more)%list. now rewrite Hmore, Hlines, List.app_assoc.
Qed.

(** The entry written for a resolved route without a schema. *)
Lemma processRoute_unknown_entry st st' route reference file handlerData :
  handler route = HandlerReference reference ->
  findControllerFile gen (parseBindingReference reference) = Some file ->
  extractClassHandlerData file (parseBindingReference reference) = Some handlerData ->
  snd (extractRequest gen handlerData) = None ->
  processRoute gen st route = Ok st' ->
  patternSegments (pattern route) <> [] ->
  Obj.get (generateTypeName (pattern route) (methods route)) (typesByPattern st')
  = Some (typeEntryOf gen file (parseBindingReference reference) None).
Proof.
  intros Hh Hfile Hdata Hnone Hstep Hsegments.
  rewrite (processRoute_resolved gen st route reference file handlerData Hh Hfile Hdata)
    in Hstep.
  simpl in Hstep.
  destruct (walkSegments (patternSegments (pattern route))
              (generateTypeName (pattern route) (methods route))
              (verbKeys route) (definition st)); simpl in Hstep; [|discriminate].
  injection Hstep as <-. simpl. rewrite Hnone.
  destruct (patternSegments (pattern route)); [contradiction|].
  apply ObjFacts.get_set_eq.
Qed.

End Runs.

(* ================================================================== *)
(** ** Properties of the generation run *)
(* ================================================================== *)

(** C1 does not hold of the code.  The filter compares the keys, which all
    start with a dollar sign, with [head], so it removes nothing: every
    method of the route gets its key, HEAD as well.  For the route [/users]
    with the methods GET and HEAD, the node of [users] receives the key
    [$head]. *)
Theorem head_verb_key_is_assigned :
  (forall route : RouteJSON,
      verbKeys route = map (fun m => "$" ++ JS.toLowerCase m) (methods route))
  /\ exists g leaf,
       generated (H := Model.externals)
                 (Sample.generatorOf Sample.noConfig [Sample.usersIndex]) = Ok g
       /\ Obj.get "users" (definition (out_state g)) = Some (VObject leaf)
       /\ Obj.get "$head" leaf = Some (VString "UsersGetHead").
Proof.
  split; [exact verbKeys_all|]. eexists. eexists. repeat split.
Qed.

(** C6, as stated, fails.  [/users/:id] and [/users/:slug] with the method
    PUT have one type name.  The handler of the first validates with an
    inline schema, that of the second with a schema that is resolved: the
    entry written for the first, with the request [unknown], is replaced
    by that of the second, and the request emitted under the type name of
    the first route is not [unknown].  And for the pattern [/], which has
    no segment, no entry is written at all. *)
Lemma later_route_overwrites_unknown_request :
  snd (extractRequest (H := Model.externals) Sample.generator Sample.updateHandler) = None
  /\ generateTypeName (H := Model.externals) (pattern Sample.usersUpdate)
                      (methods Sample.usersUpdate) = "UsersIdPut"
  /\ (exists final entry,
        processRoutes (H := Model.externals) Sample.generator initialState
                      [Sample.usersUpdate; Sample.usersReplace] = Ok final
        /\ Obj.get "UsersIdPut" (typesByPattern final) = Some entry
        /\ request entry
           = "MakeTuyauRequest<InferInput<typeof import('../app/validators/user.ts')['createUserValidator']>>"
        /\ request entry <> "unknown")
  /\ (exists final,
        processRoutes (H := Model.externals) Sample.generator initialState
                      [Sample.root] = Ok final
        /\ typesByPattern final = Obj.empty).
Proof.
  split; [reflexivity|]. split; [reflexivity|]. split.
  - eexists. eexists. split; [reflexivity|]. split; [reflexivity|].
    split; [reflexivity | discriminate].
  - eexists. split; reflexivity.
Qed.

(** C6 (amended): when the handler holds a [validateUsing] call whose first
    argument is not an identifier, or is an identifier without an
    implementation, the extraction gives no type reference and raises
    nothing.  The turn of the loop for the route then ends as the walk over
    its segments ends, and, for a pattern with a segment, writes [unknown]
    as the request of the entry of its type name.  In a run over routes
    whose segments neither start with a dollar sign nor name a member
    inherited from [Object.prototype], the loop reaches the route, writes
    that entry and goes on to the end of the list; the entry is still there
    at the end unless a later route has the same type name. *)
Theorem missing_schema_gives_unknown (E : Externals) (gen : ApiTypesGenerator)
        (route : RouteJSON) (reference : string)
        (file : SourceFile) (handlerData : HandlerData)
        (text : string) (expression : Node) (arguments : list Node) :
  handler route = HandlerReference reference ->
  findControllerFile gen (parseBindingReference reference) = Some file ->
  extractClassHandlerData file (parseBindingReference reference) = Some handlerData ->
  forEachDescendant (methodChildren (hd_method handlerData))
  = Some (CallExpression text expression arguments) ->
  schemaResolves arguments = false ->
  let typeName := generateTypeName (pattern route) (methods route) in
  let entry := typeEntryOf gen file (parseBindingReference reference) None in
  snd (extractRequest gen handlerData) = None
  /\ request entry = "unknown"
  /\ (forall st,
        processRoute gen st route =
        let* definition' :=
          walkSegments (patternSegments (pattern route)) typeName (verbKeys route)
                       (definition st) in
        Ok {| definition := definition';
              typesByPattern :=
                match patternSegments (pattern route) with
                | [] => typesByPattern st
                | _ => Obj.set typeName entry (typesByPattern st)
                end;
              logs := ((logs st ++ [Info ("Generating types for " ++ pattern route)])
                       ++ fst (extractRequest gen handlerData))%list |})
  /\ (forall pre post,
        (forall r, In r (pre ++ route :: post) -> plainSegments r) ->
        exists st st' final,
          processRoutes gen initialState pre = Ok st
          /\ processRoute gen st route = Ok st'
          /\ processRoutes gen st' post = Ok final
          /\ processRoutes gen initialState (pre ++ route :: post) = Ok final
          /\ (patternSegments (pattern route) <> [] ->
              Obj.get typeName (typesByPattern st') = Some entry
              /\ ((forall r, In r post ->
                             generateTypeName (pattern r) (methods r) <> typeName) ->
                  Obj.get typeName (typesByPattern final) = Some entry))).
Proof.
  intros Hh Hfile Hdata Hcall Hschema typeName entry.
  pose proof (extractRequest_unresolved gen handlerData _ _ _ Hcall Hschema) as Hnone.
  split; [exact Hnone|]. split; [reflexivity|]. split.
  { intros st.
    rewrite (processRoute_resolved gen st route reference file handlerData Hh Hfile Hdata).
    now rewrite Hnone. }
  intros pre post Hplain.
  destruct (processRoutes_total gen pre) with (st := initialState) as [st [Hpre Hst]];
    [intros r Hin; apply Hplain, in_or_app; now left | reflexivity |].
  destruct (processRoute_total gen st route Hst) as [st' [Hstep Hst']];
    [apply Hplain, in_or_app; right; now left|].
  destruct (processRoutes_total gen post) with (st := st') as [final [Hpost _]];
    [intros r Hin; apply Hplain, in_or_app; right; now right | exact Hst' |].
  exists st, st', final. repeat split; try assumption.
  - rewrite processRoutes_app, Hpre. simpl. now rewrite Hstep.
  - now apply (processRoute_unknown_entry gen st st' route reference file handlerData).
  - intros Hlater.
    rewrite (processRoutes_types_other gen post typeName
               (fun r Hin => or_intror (Hlater r Hin)) st' final Hpost).
    now apply (processRoute_unknown_entry gen st st' route reference file handlerData).
Qed.

Lemma missing_schema_gives_unknown_witness :
  snd (extractRequest (H := Model.externals) Sample.generator Sample.updateHandler) = None
  /\ exists final entry,
       processRoutes (H := Model.externals) Sample.generator initialState
                     [Sample.usersIndex; Sample.usersUpdate; Sample.health] = Ok final
       /\ Obj.get "UsersIdPut" (typesByPattern final) = Some entry
       /\ request entry = "unknown".
Proof.
  destruct (missing_schema_gives_unknown Model.externals Sample.generator
              Sample.usersUpdate
              "#controllers/users_controller.update" Sample.usersController
              Sample.updateHandler
              "request.validateUsing(vine.compile(schema))" Sample.callee
              [CallExpression "vine.compile(schema)"
                 (OtherNode "vine.compile"
                            [Identifier "vine" []; Identifier "compile" []])
                 [Identifier "schema" []]]
              eq_refl eq_refl eq_refl eq_refl eq_refl)
    as [Hnone [Hrequest [_ Hrun]]].
  destruct (Hrun [Sample.usersIndex] [Sample.health])
    as [st [st' [final [_ [_ [_ [Hfinal Hentry]]]]]]].
  - intros r [<-|[<-|[<-|[]]]]; unfold plainSegments; simpl; repeat constructor.
  - split; [exact Hnone|]. eexists final, _. split; [exact Hfinal|].
    destruct Hentry as [_ Hlast]; [discriminate|].
    split; [|exact Hrequest]. apply Hlast.
    intros r [<-|[]]. discriminate.
Defined.

(** C7: when no source file matches the module of the handler reference,
    the file has no default-exported class, or the class has no method of
    that name, the resolution gives nothing and raises nothing.  The turn
    of the loop completes; it appends to the log the warning that the
    controller file is not found or, after the line that types are
    generated, the warning that the controller method is not found, and
    leaves the definition object and the type map as they were.  The loop
    goes on with the next route, the run has the outcome of the run without
    the route, and the warning is in the log of every run that
    completes. *)
Theorem unresolved_handler_is_skipped (E : Externals) (gen : ApiTypesGenerator)
        (route : RouteJSON) (reference : string) :
  handler route = HandlerReference reference ->
  unresolvable gen reference ->
  let fileWarning :=
    Warning ("Unable to find the controller file for " ++ pattern route) in
  let methodWarning :=
    Warning ("Unable to find the controller method for " ++ pattern route) in
  match findControllerFile gen (parseBindingReference reference) with
  | Some file =>
      extractClassHandlerData file (parseBindingReference reference) = None
  | None => True
  end
  /\ (forall st,
        exists st',
          processRoute gen st route = Ok st'
          /\ logs st'
             = (logs st
                ++ match findControllerFile gen (parseBindingReference reference) with
                   | None => [fileWarning]
                   | Some _ =>
                       [Info ("Generating types for " ++ pattern route); methodWarning]
                   end)%list
          /\ definition st' = definition st
          /\ typesByPattern st' = typesByPattern st
          /\ forall rest,
               processRoutes gen st (route :: rest) = processRoutes gen st' rest)
  /\ (forall pre post,
        sameOutcome (processRoutes gen initialState (pre ++ route :: post))
                    (processRoutes gen initialState (pre ++ post)))
  /\ (forall pre post final,
        processRoutes gen initialState (pre ++ route :: post) = Ok final ->
        match findControllerFile gen (parseBindingReference reference) with
        | None => In fileWarning (logs final)
        | Some _ => In methodWarning (logs final)
        end).
Proof.
  intros Hh Hun fileWarning methodWarning. split; [|split; [|split]].
  - destruct Hun as [Hfile|[file [Hfile Hclass]]]; rewrite Hfile; [exact I|].
    unfold extractClassHandlerData.
    destruct Hclass as [Hnone|[classDef [Hsome Hmethod]]].
    + now rewrite Hnone.
    + now rewrite Hsome, Hmethod.
  - intros st.
    destruct (processRoute_unresolvable gen st route reference Hh Hun)
      as [st' [Hstep [Hlogs [Hdefinition Htypes]]]].
    exists st'. repeat split; try assumption.
    intros rest. simpl. now rewrite Hstep.
  - intros pre post. rewrite !processRoutes_app.
    destruct (processRoutes gen initialState pre) as [st|e]; simpl; [|reflexivity].
    destruct (processRoute_unresolvable gen st route reference Hh Hun)
      as [st' [Hstep [_ [Hdefinition Htypes]]]].
    rewrite Hstep. simpl. apply processRoutes_sameData. now split.
  - intros pre post final Hrun. rewrite processRoutes_app in Hrun.
    destruct (processRoutes gen initialState pre) as [st|e]; simpl in Hrun;
      [|discriminate].
    destruct (processRoute_unresolvable gen st route reference Hh Hun)
      as [st' [Hstep [Hlogs _]]].
    rewrite Hstep in Hrun. simpl in Hrun.
    destruct (processRoutes_logs_grow gen post st' final Hrun) as [more Hmore].
    rewrite Hmore, Hlogs.
    destruct (findControllerFile gen (parseBindingReference reference));
      apply in_or_app; left; apply in_or_app; right; simpl; auto.
Qed.

(** The route of a controller that is not in the project, among the sample
    routes. *)
Lemma unresolved_handler_is_skipped_witness :
  exists final,
    processRoutes (H := Model.externals) Sample.generator initialState
                  ([Sample.usersIndex] ++ Sample.commentsShow :: [Sample.usersUpdate])
    = Ok final
    /\ In (Warning
             "Unable to find the controller file for /users/:id/comments/:commentId")
          (logs final).
Proof.
  eexists. split; [reflexivity|].
  apply (proj2 (proj2 (proj2 (unresolved_handler_is_skipped
                                Model.externals Sample.generator
                                Sample.commentsShow
                                "#controllers/comments_controller.show"
                                eq_refl (or_introl eq_refl))))
               [Sample.usersIndex] [Sample.usersUpdate] _ eq_refl).
Defined.



(** C10: the named-routes array is built from the routes that the filter of
    the mode [routes] keeps among those the filter of the mode
    [definitions] has kept.  Every entry comes from a named route that
    passes both filters, and a pattern whose routes the [definitions]
    filter rejects has no entry, whatever the [routes] filter says. *)
Theorem routes_filter_runs_on_definition_routes (E : Externals)
        (gen : ApiTypesGenerator) (g : Generated) :
  generated gen = Ok g ->
  out_routesNameArray g =
    generateRoutesNameArray
      (filterRoutes (gen_config gen)
                    (filterRoutes (gen_config gen) (gen_routes gen) Definitions)
                    Routes)
      (typesByPattern (out_state g))
  /\ (forall e,
        In e (out_routesNameArray g) ->
        exists r,
          In r (gen_routes gen)
          /\ passes (gen_config gen) Definitions r = true
          /\ passes (gen_config gen) Routes r = true
          /\ hasName (name r) = true
          /\ e = routeNameEntry (typesByPattern (out_state g)) r)
  /\ (forall p,
        (forall r, In r (gen_routes gen) -> pattern r = p ->
                   passes (gen_config gen) Definitions r = false) ->
        forall e, In e (out_routesNameArray g) -> RouteName.path e <> p).
Proof.
  intros Hg. unfold generated in Hg.
  destruct (processRoutes gen initialState (definitionRoutes gen)) as [st|e] eqn:Hrun;
    simpl in Hg; [|discriminate].
  injection Hg as <-. simpl.
  assert (Hentries : forall e,
             In e (generateRoutesNameArray
                     (filterRoutes (gen_config gen) (definitionRoutes gen) Routes)
                     (typesByPattern st)) ->
             exists r,
               In r (gen_routes gen)
               /\ passes (gen_config gen) Definitions r = true
               /\ passes (gen_config gen) Routes r = true
               /\ hasName (name r) = true
               /\ e = routeNameEntry (typesByPattern st) r).
  { intros e He. apply generateRoutesNameArray_in in He.
    destruct He as [r [Hin [Hname ->]]].
    apply filterRoutes_in in Hin. destruct Hin as [Hin Hroutes].
    unfold definitionRoutes in Hin. apply filterRoutes_in in Hin.
    destruct Hin as [Hin Hdefinitions]. exists r. auto. }
  split; [reflexivity|]. split; [exact Hentries|].
  intros p Hrejected e He Hpath.
  destruct (Hentries e He) as [r [Hin [Hdefinitions [_ [_ ->]]]]].
  simpl in Hpath. rewrite (Hrejected r Hin Hpath) in Hdefinitions. discriminate.
Qed.

(** [/health] is named and no [routes] filter is configured; the
    [definitions] filter rejects it, and it has no entry. *)
Lemma routes_filter_runs_on_definition_routes_witness :
  exists g,
    generated (H := Model.externals) Sample.filteredGenerator = Ok g
    /\ passes (gen_config Sample.filteredGenerator) Routes Sample.health = true
    /\ hasName (name Sample.health) = true
    /\ forall e, In e (out_routesNameArray g) -> RouteName.path e <> "/health".
Proof.
  eexists. split; [reflexivity|]. split; [reflexivity|]. split; [reflexivity|].
  apply (proj2 (proj2 (routes_filter_runs_on_definition_routes
                         Model.externals Sample.filteredGenerator _ eq_refl))).
  intros r [<-|[<-|[]]] Hpattern; [discriminate Hpattern | reflexivity].
Defined.

(** *** Two runs *)





(** Without the [g] and [y] flags a run over a configuration of regular
    expression objects is [generate] on the configuration read as a pure
    one, whatever the values of [lastIndex] it starts from, and it writes
    none of them. *)
Theorem generate_without_flags (E : Externals) (gen : ApiTypesGenerator)
        (config : LastIndex.Configuration)
        (store : gmap nat nat) (disk : gmap string string) :
  LastIndex.flagless config Definitions = true ->
  LastIndex.flagless config Routes = true ->
  gen_config gen = LastIndex.pureConfig config ->
  LastIndex.generate gen config store disk
  = match generate gen disk with
    | Ok (after, lines) =>
        Ok {| LastIndex.ran_disk := after;
              LastIndex.ran_logs := lines;
              LastIndex.ran_store := store |}
    | Stopped why => Stopped why
    end.
Proof.
  intros Hdefinitions Hroutes Hconfig.
  unfold LastIndex.generate, generate, generated, definitionRoutes.
  rewrite (filterRoutes_flagless config _ Definitions store Hdefinitions), Hconfig.
  destruct (processRoutes gen initialState
              (filterRoutes (LastIndex.pureConfig config) (gen_routes gen) Definitions))
    as [st|e]; simpl; [|reflexivity].
  now rewrite (filterRoutes_flagless config _ Routes store Hroutes).
Qed.

Lemma generate_without_flags_witness :
  LastIndex.generate (H := Model.externals)
                     (Sample.generatorOf
                        (LastIndex.pureConfig Sample.onlyUsersExceptIndex)
                        [Sample.usersIndex; Sample.admin])
                     Sample.onlyUsersExceptIndex (<[0%nat := 6%nat]> ∅) ∅
  = match generate (H := Model.externals)
                   (Sample.generatorOf
                      (LastIndex.pureConfig Sample.onlyUsersExceptIndex)
                      [Sample.usersIndex; Sample.admin]) ∅ with
    | Ok (after, lines) =>
        Ok {| LastIndex.ran_disk := after;
              LastIndex.ran_logs := lines;
              LastIndex.ran_store := <[0%nat := 6%nat]> ∅ |}
    | Stopped why => Stopped why
    end.
Proof.
  apply (generate_without_flags Model.externals
           (Sample.generatorOf (LastIndex.pureConfig Sample.onlyUsersExceptIndex)
                               [Sample.usersIndex; Sample.admin])
           Sample.onlyUsersExceptIndex (<[0%nat := 6%nat]> ∅) ∅
           eq_refl eq_refl eq_refl).
Defined.








(* ================================================================== *)
(** ** More on the route filter *)
(* ================================================================== *)

Lemma filter_twice {A} (p : A -> bool) (l : list A) :
  List.filter p (List.filter p l) = List.filter p l.
Proof.
  induction l as [|x rest IH]; simpl; [reflexivity|].
  destruct (p x) eqn:E; simpl; [rewrite E|]; now rewrite IH.
Qed.

Lemma filter_swap {A} (p q : A -> bool) (l : list A) :
  List.filter p (List.filter q l) = List.filter q (List.filter p l).
Proof.
  induction l as [|x rest IH]; simpl; [reflexivity|].
  destruct (p x) eqn:Ep, (q x) eqn:Eq; simpl; rewrite ?Ep, ?Eq, IH; reflexivity.
Qed.

Lemma filter_sublist {A} (p : A -> bool) (l : list A) : sublist (List.filter p l) l.
Proof.
  induction l as [|x rest IH]; simpl; [constructor|].
  destruct (p x); now constructor.
Qed.

(** Filtering a second time with the filter of the same mode changes
    nothing, and no [lastIndex] is written, when no regular expression of
    the mode has the [g] or the [y] flag. *)
Theorem filterRoutes_idempotent (config : LastIndex.Configuration)
        (rs : list RouteJSON) (mode : Mode) (store : gmap nat nat) :
  LastIndex.flagless config mode = true ->
  let '(kept, store') := LastIndex.filterRoutes config rs mode store in
  store' = store
  /\ LastIndex.filterRoutes config kept mode store' = (kept, store').
Proof.
  intros Hflag. rewrite (filterRoutes_flagless config rs mode store Hflag).
  split; [reflexivity|].
  rewrite (filterRoutes_flagless config _ mode store Hflag).
  now rewrite !filterRoutes_passes, filter_twice.
Qed.

Lemma filterRoutes_idempotent_witness :
  LastIndex.filterRoutes
    (Sample.configurationOf
       (Some (Sample.onlyEntries [LastIndex.ObjectEntry (Sample.usersObject false)]))
       None)
    [Sample.users] Definitions (<[0 := 6]> (∅ : gmap nat nat))
  = ([Sample.users], <[0 := 6]> (∅ : gmap nat nat)).
Proof.
  pose proof (filterRoutes_idempotent
                (Sample.configurationOf
                   (Some (Sample.onlyEntries
                            [LastIndex.ObjectEntry (Sample.usersObject false)]))
                   None)
                [Sample.users; Sample.admin] Definitions
                (<[0 := 6]> (∅ : gmap nat nat)) eq_refl) as Htwice.
  exact (proj2 Htwice).
Defined.

(** Without the [g] and [y] flags the filters of the two modes can be
    applied in either order, and a route is in the result when each of the
    two filters keeps it. *)
Theorem filterRoutes_modes_commute (config : LastIndex.Configuration)
        (rs : list RouteJSON) (store : gmap nat nat) :
  LastIndex.flagless config Definitions = true ->
  LastIndex.flagless config Routes = true ->
  let '(a, store1) := LastIndex.filterRoutes config rs Definitions store in
  let '(b, store2) := LastIndex.filterRoutes config a Routes store1 in
  let '(a', store1') := LastIndex.filterRoutes config rs Routes store in
  let '(b', store2') := LastIndex.filterRoutes config a' Definitions store1' in
  b = b' /\ store2 = store /\ store2' = store
  /\ forall r, In r b <-> In r a /\ In r a'.
Proof.
  intros Hdefinitions Hroutes.
  rewrite (filterRoutes_flagless config rs Definitions store Hdefinitions).
  rewrite (filterRoutes_flagless config _ Routes store Hroutes).
  rewrite (filterRoutes_flagless config rs Routes store Hroutes).
  rewrite (filterRoutes_flagless config _ Definitions store Hdefinitions).
  split; [|split; [reflexivity|split; [reflexivity|]]].
  - rewrite !filterRoutes_passes. apply filter_swap.
  - intros r. rewrite !filterRoutes_in. tauto.
Qed.

Lemma filterRoutes_modes_commute_witness :
  fst (LastIndex.filterRoutes
         Sample.onlyUsersExceptIndex
         (fst (LastIndex.filterRoutes Sample.onlyUsersExceptIndex
                 [Sample.users; Sample.usersUpdate; Sample.admin] Definitions ∅))
         Routes ∅)
  = fst (LastIndex.filterRoutes
           Sample.onlyUsersExceptIndex
           (fst (LastIndex.filterRoutes Sample.onlyUsersExceptIndex
                   [Sample.users; Sample.usersUpdate; Sample.admin] Routes ∅))
           Definitions ∅)
  /\ fst (LastIndex.filterRoutes
            Sample.onlyUsersExceptIndex
            (fst (LastIndex.filterRoutes Sample.onlyUsersExceptIndex
                    [Sample.users; Sample.usersUpdate; Sample.admin] Definitions ∅))
            Routes ∅)
     = [Sample.usersUpdate].
Proof.
  split; [|reflexivity].
  exact (proj1 (filterRoutes_modes_commute
                  Sample.onlyUsersExceptIndex
                  [Sample.users; Sample.usersUpdate; Sample.admin] ∅ eq_refl eq_refl)).
Defined.

(** The filter never adds, repeats or reorders a route, whatever the flags
    of its regular expressions; without the [g] and [y] flags the fate of
    a route does not depend on the routes around it. *)
Theorem filterRoutes_sublist (config : LastIndex.Configuration) (mode : Mode) :
  (forall rs store, sublist (fst (LastIndex.filterRoutes config rs mode store)) rs)
  /\ (LastIndex.flagless config mode = true ->
      forall rs rs' store,
        fst (LastIndex.filterRoutes config (rs ++ rs') mode store)
        = (fst (LastIndex.filterRoutes config rs mode store)
           ++ fst (LastIndex.filterRoutes config rs' mode store))%list).
Proof.
  split.
  - intros rs store. unfold LastIndex.filterRoutes.
    destruct (LastIndex.modeFilters config mode) as [c|]; [|reflexivity].
    destruct (LastIndex.onlyFilter c), (LastIndex.exceptFilter c);
      solve [apply filterList_sublist | reflexivity].
  - intros Hflag rs rs' store.
    rewrite !(filterRoutes_flagless config _ mode store Hflag). simpl.
    rewrite !filterRoutes_passes. apply List.filter_app.
Qed.

Lemma filterRoutes_sublist_witness :
  fst (LastIndex.filterRoutes
         (Sample.configurationOf
            (Some (Sample.exceptEntries [LastIndex.StringEntry "/admin"])) None)
         ([Sample.admin; Sample.users] ++ [Sample.admin; Sample.health])
         Definitions (∅ : gmap nat nat))
  = [Sample.users; Sample.health].
Proof.
  rewrite (proj2 (filterRoutes_sublist
                    (Sample.configurationOf
                       (Some (Sample.exceptEntries [LastIndex.StringEntry "/admin"]))
                       None)
                    Definitions) eq_refl).
  reflexivity.
Defined.

(** An empty [only] list is a filter that keeps no route, while an empty
    [except] list keeps every route. *)
Theorem filterRoutes_empty_lists (config : TuyauConfig) (rs : list RouteJSON)
        (mode : Mode) (c : FilterConfig) :
  modeConfig config mode = Some c ->
  isFilterFunction (except c) = false ->
  (only c = Some (FilterList []) -> filterRoutes config rs mode = [])
  /\ (only c = None -> except c = Some (FilterList []) ->
      filterRoutes config rs mode = rs).
Proof.
  intros Hmode Hexcept. unfold filterRoutes. rewrite Hmode. split.
  - intros Honly. rewrite Honly. unfold keepRoute. rewrite Honly.
    destruct (except c) as [[g|entries]|]; [discriminate| |];
      induction rs as [|r rest IH]; simpl; auto.
  - intros Honly Hexc. rewrite Honly, Hexc. unfold keepRoute. rewrite Honly, Hexc.
    apply filter_all. reflexivity.
Qed.

Lemma filterRoutes_empty_lists_witness :
  filterRoutes (Sample.configOf (Some {| only := Some (FilterList []); except := None |})
                                None)
               [Sample.users; Sample.admin] Definitions = []
  /\ filterRoutes (Sample.configOf None
                     (Some {| only := None; except := Some (FilterList []) |}))
                  [Sample.users; Sample.admin] Routes = [Sample.users; Sample.admin].
Proof.
  split.
  - apply (proj1 (filterRoutes_empty_lists
                    (Sample.configOf
                       (Some {| only := Some (FilterList []); except := None |}) None)
                    [Sample.users; Sample.admin] Definitions
                    {| only := Some (FilterList []); except := None |}
                    eq_refl eq_refl)).
    reflexivity.
  - apply (proj2 (filterRoutes_empty_lists
                    (Sample.configOf
                       None (Some {| only := None; except := Some (FilterList []) |}))
                    [Sample.users; Sample.admin] Routes
                    {| only := None; except := Some (FilterList []) |}
                    eq_refl eq_refl)); reflexivity.
Defined.

(* ================================================================== *)
(** ** More on segments and type names *)
(* ================================================================== *)

Lemma split_at_sep sep a b :
  JS.split sep (a ++ String sep b) = (JS.split sep a ++ JS.split sep b)%list.
Proof.
  induction a as [|c a IH]; simpl.
  - now rewrite Ascii.eqb_refl.
  - destruct (Ascii.eqb c sep); [now rewrite IH|].
    rewrite IH. pose proof (split_nonempty sep a) as Hne.
    destruct (JS.split sep a); [contradiction | reflexivity].
Qed.

Lemma patternSegments_slash a b :
  patternSegments (a ++ String "/" b) = (patternSegments a ++ patternSegments b)%list.
Proof. unfold patternSegments. rewrite split_at_sep. apply List.filter_app. Qed.

Lemma patternSegments_free s :
  s <> EmptyString -> JS.includes "/" s = false -> patternSegments s = [s].
Proof.
  intros Hne Hfree. unfold patternSegments. rewrite (split_free "/" s Hfree). simpl.
  destruct s; [contradiction | reflexivity].
Qed.

(** The segments of a pattern cut at a slash are the segments of the two
    parts, so slashes at the start, at the end or in a row add no segment,
    and such patterns have the same type name. *)
Theorem patternSegments_slashes :
  (forall a b,
      patternSegments (a ++ "/" ++ b) = (patternSegments a ++ patternSegments b)%list)
  /\ (forall pat, patternSegments (pat ++ "/") = patternSegments pat)
  /\ (forall pat, patternSegments ("/" ++ pat) = patternSegments pat)
  /\ (forall a b, patternSegments (a ++ "//" ++ b) = patternSegments (a ++ "/" ++ b))
  /\ (forall (E : Externals) pat ms,
        generateTypeName (pat ++ "/") ms = generateTypeName pat ms).
Proof.
  assert (Hcut : forall a b,
             patternSegments (a ++ "/" ++ b)
             = (patternSegments a ++ patternSegments b)%list)
    by (intros a b; apply patternSegments_slash).
  assert (Hend : forall pat, patternSegments (pat ++ "/") = patternSegments pat).
  { intros pat. rewrite (patternSegments_slash pat EmptyString). apply app_nil_r. }
  split; [exact Hcut|]. split; [exact Hend|]. split; [|split].
  - intros pat. apply (patternSegments_slash EmptyString pat).
  - intros a b.
    change (a ++ "//" ++ b) with (a ++ String "/" (EmptyString ++ String "/" b)).
    rewrite patternSegments_slash, (patternSegments_slash EmptyString b).
    symmetry. apply patternSegments_slash.
  - intros E pat ms. unfold generateTypeName. now rewrite Hend.
Qed.

(** The names of the parameters of a pattern do not reach the type name,
    and a parameter is not told from the literal segment [id]. *)
Theorem generateTypeName_parameter_names (E : Externals) (a b p q : string)
        (ms : list string) :
  JS.includes "/" p = false ->
  JS.includes "/" q = false ->
  generateTypeName (a ++ "/:" ++ p ++ "/" ++ b) ms
  = generateTypeName (a ++ "/:" ++ q ++ "/" ++ b) ms
  /\ generateTypeName (a ++ "/:" ++ p ++ "/" ++ b) ms
     = generateTypeName (a ++ "/id/" ++ b) ms.
Proof.
  intros Hp Hq.
  assert (Hparam : forall x,
             JS.includes "/" x = false ->
             map remapSegment (patternSegments (a ++ "/:" ++ x ++ "/" ++ b))
             = (map remapSegment (patternSegments a)
                ++ "id" :: map remapSegment (patternSegments b))%list).
  { intros x Hx.
    change (a ++ "/:" ++ x ++ "/" ++ b) with (a ++ String "/" ((":" ++ x) ++ String "/" b)).
    assert (Hremap : remapSegment (":" ++ x) = "id")
      by (unfold remapSegment, JS.startsWith; simpl; now destruct x).
    rewrite !patternSegments_slash, (patternSegments_free (":" ++ x)).
    - rewrite !map_app. simpl map. now rewrite Hremap.
    - discriminate.
    - exact Hx. }
  assert (Hid : map remapSegment (patternSegments (a ++ "/id/" ++ b))
                = (map remapSegment (patternSegments a)
                   ++ "id" :: map remapSegment (patternSegments b))%list).
  { change (a ++ "/id/" ++ b) with (a ++ String "/" ("id" ++ String "/" b)).
    rewrite !patternSegments_slash, (patternSegments_free "id");
      [now rewrite !map_app | discriminate | reflexivity]. }
  unfold generateTypeName. now rewrite (Hparam p Hp), (Hparam q Hq), Hid.
Qed.

Lemma generateTypeName_parameter_names_witness :
  generateTypeName (H := Model.externals) ("/users" ++ "/:" ++ "id" ++ "/" ++ "posts") ["GET"]
  = generateTypeName (H := Model.externals)
                     ("/users" ++ "/:" ++ "slug" ++ "/" ++ "posts") ["GET"].
Proof.
  apply (proj1 (generateTypeName_parameter_names Model.externals
                  "/users" "posts" "id" "slug" ["GET"] eq_refl eq_refl)).
Defined.

(* ================================================================== *)
(** ** More on the source project *)
(* ================================================================== *)

Lemma find_app {A} (p : A -> bool) (l l' : list A) :
  List.find p (l ++ l') =
  match List.find p l with
  | Some x => Some x
  | None => List.find p l'
  end.
Proof.
  induction l as [|x rest IH]; simpl; [reflexivity|].
  destruct (p x); [reflexivity | exact IH].
Qed.

Lemma visitNode_find :
  forall n, visitNode n = List.find isValidateUsingCall (preorder n).
Proof.
  fix IH 1. intros n.
  destruct n as [t expression arguments|t implementations|t children].
  - change (preorder (CallExpression t expression arguments))
      with (CallExpression t expression arguments
            :: (preorder expression
                ++ (fix all (l : list Node) : list Node :=
                      match l with
                      | [] => []
                      | c :: rest => preorder c ++ all rest
                      end) arguments)%list).
    simpl List.find. simpl visitNode.
    destruct (JS.includes "validateUsing" (getText expression)); [reflexivity|].
    rewrite find_app, <- (IH expression).
    destruct (visitNode expression); [reflexivity|].
    induction arguments as [|c rest IHrest]; [reflexivity|].
    rewrite find_app, <- (IH c). destruct (visitNode c); [reflexivity | exact IHrest].
  - reflexivity.
  - simpl. induction children as [|c rest IHrest]; [reflexivity|].
    rewrite find_app, <- (IH c). destruct (visitNode c); [reflexivity | exact IHrest].
Qed.

(** The traversal returns the first descendant, in document order, that is
    a call whose callee text includes [validateUsing]; in particular what
    it returns is such a call, and it returns nothing only when there is
    none. *)
Theorem forEachDescendant_first (children : list Node) :
  forEachDescendant children
  = List.find isValidateUsingCall (descendants children)
  /\ (forall n, forEachDescendant children = Some n ->
                In n (descendants children)
                /\ exists t expression arguments,
                     n = CallExpression t expression arguments
                     /\ JS.includes "validateUsing" (getText expression) = true)
  /\ (forEachDescendant children = None <->
      forall n, In n (descendants children) -> isValidateUsingCall n = false).
Proof.
  assert (Hfind : forEachDescendant children
                  = List.find isValidateUsingCall (descendants children)).
  { unfold descendants. induction children as [|c rest IH]; [reflexivity|].
    simpl. rewrite find_app, <- visitNode_find.
    destruct (visitNode c); [reflexivity | exact IH]. }
  split; [exact Hfind|]. rewrite Hfind. split.
  - intros n Hn. apply find_some in Hn. destruct Hn as [Hin Hcall].
    split; [exact Hin|].
    destruct n as [t expression arguments| |]; try discriminate. eauto.
  - split.
    + intros Hnone n Hin. now apply (find_none _ _ Hnone).
    + intros Hall. destruct (List.find isValidateUsingCall (descendants children))
        as [n|] eqn:Hn; [|reflexivity].
      apply find_some in Hn. destruct Hn as [Hin Hcall].
      rewrite (Hall n Hin) in Hcall. discriminate.
Qed.

Lemma forEachDescendant_first_witness :
  In (CallExpression "request.validateUsing(createUserValidator)" Sample.callee
        [Identifier "createUserValidator" ["/app/app/validators/user.ts"]])
     (descendants [Sample.validatedBody]).
Proof.
  apply (proj1 (proj2 (forEachDescendant_first [Sample.validatedBody])) _ eq_refl).
Defined.

(** What the schema extraction returns and logs: a type reference only for
    a first argument that is an identifier with an implementation, built
    from the identifier and the relative path of its first implementation,
    with no log line; a warning only for an identifier without one, and
    none for any other argument; nothing at all without a call. *)
Theorem extractRequest_cases (E : Externals) (gen : ApiTypesGenerator)
        (handlerData : HandlerData) :
  (forall typeReference,
      snd (extractRequest gen handlerData) = Some typeReference ->
      fst (extractRequest gen handlerData) = []
      /\ exists t expression schemaText importPath others rest,
           forEachDescendant (methodChildren (hd_method handlerData))
           = Some (CallExpression t expression
                     (Identifier schemaText (importPath :: others) :: rest))
           /\ typeReference
              = "InferInput<typeof import('"
                ++ relative (gen_destinationDirectory gen) importPath
                ++ "')['" ++ schemaText ++ "']>")
  /\ (forall line,
        In line (fst (extractRequest gen handlerData)) ->
        snd (extractRequest gen handlerData) = None
        /\ exists t expression schemaText rest,
             forEachDescendant (methodChildren (hd_method handlerData))
             = Some (CallExpression t expression (Identifier schemaText [] :: rest))
             /\ line = Warning ("Unable to find the schema file for " ++ schemaText))
  /\ (forEachDescendant (methodChildren (hd_method handlerData)) = None ->
      extractRequest gen handlerData = ([], None)).
Proof.
  unfold extractRequest.
  destruct (forEachDescendant (methodChildren (hd_method handlerData)))
    as [[t expression arguments|t implementations|t children]|];
    try (repeat split; simpl; try discriminate; intros; contradiction).
  destruct arguments
    as [|[t' e' a'|schemaText [|importPath others]|t' c'] rest];
    try (repeat split; simpl; try discriminate; intros; contradiction).
  - split; [simpl; discriminate|]. split; [|discriminate].
    simpl. intros line [<-|[]]. split; [reflexivity|]. eauto 10.
  - split; [|split; [simpl; intros line []|discriminate]].
    simpl. intros typeReference [= <-]. split; [reflexivity|]. eauto 10.
Qed.

Lemma extractRequest_cases_witness :
  fst (extractRequest (H := Model.externals) Sample.generator
         {| hd_method := Sample.methodOf "store" Sample.validatedBody;
            hd_body := Sample.validatedBody |}) = []
  /\ snd (extractRequest (H := Model.externals) Sample.generator
            {| hd_method := Sample.methodOf "store" Sample.validatedBody;
               hd_body := Sample.validatedBody |})
     = Some "InferInput<typeof import('../app/validators/user.ts')['createUserValidator']>".
Proof.
  split; [|reflexivity].
  apply (proj1 (extractRequest_cases Model.externals Sample.generator
                  {| hd_method := Sample.methodOf "store" Sample.validatedBody;
                     hd_body := Sample.validatedBody |}) _ eq_refl).
Defined.

(** What the handler resolution returns is a method of that name, with the
    returned body, of a default-exported class of the file. *)
Theorem extractClassHandlerData_sound (file : SourceFile)
        (routeHandler : RouteReferenceParsed) (handlerData : HandlerData) :
  extractClassHandlerData file routeHandler = Some handlerData ->
  exists classDef,
    In classDef (getClasses file)
    /\ isDefaultExport classDef = true
    /\ In (hd_method handlerData) (getMethods classDef)
    /\ methodName (hd_method handlerData) = method routeHandler
    /\ getBody (hd_method handlerData) = Some (hd_body handlerData).
Proof.
  unfold extractClassHandlerData, getMethod.
  destruct (List.find isDefaultExport (getClasses file)) as [classDef|] eqn:Hclass;
    [|discriminate].
  destruct (List.find (fun m => String.eqb (methodName m) (method routeHandler))
                      (getMethods classDef)) as [m|] eqn:Hmethod; [|discriminate].
  destruct (getBody m) as [body|] eqn:Hbody; [|discriminate].
  intros [= <-]. simpl.
  apply find_some in Hclass. apply find_some in Hmethod.
  destruct Hclass as [Hin Hdefault]. destruct Hmethod as [Hm Hname].
  apply String.eqb_eq in Hname. exists classDef. auto.
Qed.

Lemma extractClassHandlerData_sound_witness :
  exists classDef,
    In classDef (getClasses Sample.usersController)
    /\ isDefaultExport classDef = true
    /\ In (hd_method Sample.updateHandler) (getMethods classDef)
    /\ methodName (hd_method Sample.updateHandler) = "update"
    /\ getBody (hd_method Sample.updateHandler) = Some (hd_body Sample.updateHandler).
Proof.
  apply (extractClassHandlerData_sound Sample.usersController
           {| moduleNameOrPath := "#controllers/users_controller"; method := "update" |}
           Sample.updateHandler eq_refl).
Defined.

(* ================================================================== *)
(** ** More on the definition object *)
(* ================================================================== *)

Section TreePaths.

Lemma get_assignLeaf_verb typeName verbs m (o : Obj.t DefValue) :
  In m verbs -> Obj.get m (assignLeaf typeName verbs o) = Some (VString typeName).
Proof.
  unfold assignLeaf. generalize (Obj.set "$url" (VObject Obj.empty) o).
  assert (Hkeep : forall vs level,
             Obj.get m level = Some (VString typeName) ->
             Obj.get m (fold_left (fun level m' => Obj.set m' (VString typeName) level)
                                  vs level) = Some (VString typeName)).
  { induction vs as [|m0 rest IH]; simpl; intros level Hget; [exact Hget|].
    apply IH. destruct (String.eqb m m0) eqn:E.
    - apply String.eqb_eq in E. subst. apply ObjFacts.get_set_eq.
    - apply String.eqb_neq in E. now rewrite ObjFacts.get_set_ne. }
  induction verbs as [|m0 rest IH]; simpl; intros level Hin; [contradiction|].
  destruct Hin as [->|Hin]; [|now apply IH].
  apply Hkeep, ObjFacts.get_set_eq.
Qed.

Lemma get_assignLeaf_other typeName verbs k (o : Obj.t DefValue) :
  ~ In k verbs -> k <> "$url" ->
  Obj.get k (assignLeaf typeName verbs o) = Obj.get k o.
Proof.
  intros Hverbs Hurl. unfold assignLeaf.
  rewrite <- (ObjFacts.get_set_ne "$url" k (VObject Obj.empty) o Hurl).
  generalize (Obj.set "$url" (VObject Obj.empty) o).
  induction verbs as [|m0 rest IH]; simpl; intros level; [reflexivity|].
  rewrite IH; [|intros Hin; apply Hverbs; now right].
  apply ObjFacts.get_set_ne. intros ->. apply Hverbs. now left.
Qed.

Lemma get_assignLeaf_url typeName verbs (o : Obj.t DefValue) :
  ~ In "$url" verbs ->
  Obj.get "$url" (assignLeaf typeName verbs o) = Some (VObject Obj.empty).
Proof.
  intros Hverbs. unfold assignLeaf.
  pose proof (ObjFacts.get_set_eq "$url" (VObject Obj.empty) o) as Hstart.
  revert Hstart. generalize (Obj.set "$url" (VObject Obj.empty) o).
  induction verbs as [|m0 rest IH]; simpl; intros level Hlevel; [exact Hlevel|].
  apply IH; [intros Hin; apply Hverbs; now right|].
  rewrite ObjFacts.get_set_ne; [exact Hlevel|].
  intros Heq. apply Hverbs. now left.
Qed.

Lemma get_ensureLevel_other segment k (o : Obj.t DefValue) :
  k <> segment -> Obj.get k (ensureLevel segment o) = Obj.get k o.
Proof.
  intros Hne. unfold ensureLevel.
  destruct (Obj.get segment o) as [[s|child]|]; try reflexivity.
  - destruct (JS.truthy s); [reflexivity | now apply ObjFacts.get_set_ne].
  - destruct (Obj.inherited segment); [reflexivity | now apply ObjFacts.get_set_ne].
Qed.

(** When the level already holds an object or a type name under the
    segment, nothing is created. *)
Lemma ensureLevel_present segment v (o : Obj.t DefValue) :
  Obj.get segment o = Some v -> v <> VString EmptyString -> ensureLevel segment o = o.
Proof.
  intros Hget Hv. unfold ensureLevel. rewrite Hget.
  destruct v as [s|child]; [|reflexivity].
  destruct s; [contradiction | reflexivity].
Qed.

(** After the walk, the path of the segments leads to a node that holds the
    type name under every verb key and, unless a verb key took its place,
    the empty [$url] marker. *)
Theorem walkSegments_lookup typeName verbs segments :
  forall (o o' : Obj.t DefValue),
    segments <> [] ->
    walkSegments segments typeName verbs o = Ok o' ->
    exists leaf,
      lookupPath segments o' = Some leaf
      /\ (forall m, In m verbs -> Obj.get m leaf = Some (VString typeName))
      /\ (~ In "$url" verbs -> Obj.get "$url" leaf = Some (VObject Obj.empty)).
Proof.
  induction segments as [|segment rest IH]; intros o o' Hne Hwalk; [contradiction|].
  simpl in Hwalk.
  destruct (Obj.get segment (ensureLevel segment o)) as [[s|child]|] eqn:Hget;
    try (now destruct rest).
  destruct rest as [|next rest'].
  - injection Hwalk as <-. exists (assignLeaf typeName verbs child).
    simpl. rewrite ObjFacts.get_set_eq. split; [reflexivity|]. split.
    + intros m Hm. now apply get_assignLeaf_verb.
    + apply get_assignLeaf_url.
  - destruct (walkSegments (next :: rest') typeName verbs child) as [child'|e]
      eqn:Hrec; simpl in Hwalk; [|discriminate].
    injection Hwalk as <-.
    destruct (IH child child') as [leaf [Hleaf Hkeys]]; [discriminate | exact Hrec |].
    exists leaf. split; [|exact Hkeys].
    change (lookupPath (segment :: next :: rest')
                       (Obj.set segment (VObject child') (ensureLevel segment o)))
      with (match Obj.get segment
                    (Obj.set segment (VObject child') (ensureLevel segment o)) with
            | Some (VObject c) => lookupPath (next :: rest') c
            | _ => None
            end).
    now rewrite ObjFacts.get_set_eq.
Qed.

Lemma walkSegments_lookup_witness :
  exists o' leaf,
    walkSegments ["users"; ":id"] "UsersIdPut" ["$put"] Obj.empty = Ok o'
    /\ lookupPath ["users"; ":id"] o' = Some leaf
    /\ Obj.get "$put" leaf = Some (VString "UsersIdPut").
Proof.
  destruct (walkSegments ["users"; ":id"] "UsersIdPut" ["$put"] Obj.empty)
    as [o'|e] eqn:Hwalk; [|vm_compute in Hwalk; discriminate Hwalk].
  destruct (walkSegments_lookup "UsersIdPut" ["$put"] ["users"; ":id"] Obj.empty o')
    as [leaf [Hleaf [Hverbs _]]]; [discriminate | exact Hwalk |].
  exists o', leaf. split; [reflexivity|]. split; [exact Hleaf|].
  apply Hverbs. now left.
Defined.

End TreePaths.

Lemma plain_not_verb verbs k :
  Forall (fun m => JS.startsWith "$" m = true) verbs ->
  JS.startsWith "$" k = false ->
  ~ In k verbs /\ k <> "$url".
Proof.
  intros Hverbs Hk. split.
  - intros Hin. rewrite List.Forall_forall in Hverbs.
    rewrite (Hverbs k Hin) in Hk. discriminate.
  - intros ->. discriminate.
Qed.

(** The walk of a route keeps every type name that earlier routes stored:
    a non-empty type name under a key of a node reached by segments
    without dollar sign is still there afterwards, unless the node is the
    one of the route and the key is [$url] or one of its verb keys.  Routes
    on the same pattern with different methods so add up at the node. *)
Theorem walkSegments_keeps typeName verbs segments :
  Forall (fun m => JS.startsWith "$" m = true) verbs ->
  forall (o o' : Obj.t DefValue),
    walkSegments segments typeName verbs o = Ok o' ->
    forall path node k s,
      Forall (fun segment => JS.startsWith "$" segment = false) path ->
      lookupPath path o = Some node ->
      Obj.get k node = Some (VString s) ->
      s <> EmptyString ->
      (path = segments -> ~ In k verbs /\ k <> "$url") ->
      exists node',
        lookupPath path o' = Some node' /\ Obj.get k node' = Some (VString s).
Proof.
  intros Hverbs.
  induction segments as [|segment rest IH];
    intros o o' Hwalk path node k s Hplain Hnode Hk Hs Hleaf.
  { injection Hwalk as <-. eauto. }
  simpl in Hwalk.
  destruct (Obj.get segment (ensureLevel segment o)) as [[t|child]|] eqn:Hget;
    try (now destruct rest).
  assert (Hout : exists x,
             o' = Obj.set segment (VObject x) (ensureLevel segment o)
             /\ match rest with
                | [] => x = assignLeaf typeName verbs child
                | _ => walkSegments rest typeName verbs child = Ok x
                end).
  { destruct rest as [|next rest'].
    - injection Hwalk as <-. eauto.
    - destruct (walkSegments (next :: rest') typeName verbs child) as [child'|e];
        simpl in Hwalk; [|discriminate].
      injection Hwalk as <-. eauto. }
  destruct Hout as [x [-> Hx]]. clear Hwalk.
  destruct path as [|q path'].
  - (* the node is the level the walk starts from *)
    injection Hnode as <-.
    assert (Hne : k <> segment).
    { intros ->. rewrite (ensureLevel_present segment (VString s) o Hk) in Hget.
      - rewrite Hk in Hget. discriminate.
      - congruence. }
    exists (Obj.set segment (VObject x) (ensureLevel segment o)).
    split; [reflexivity|].
    now rewrite ObjFacts.get_set_ne, get_ensureLevel_other.
  - simpl in Hnode.
    destruct (Obj.get q o) as [[t|c]|] eqn:Hq; try discriminate.
    inversion Hplain as [|q0 p0 Hq0 Hplain']; subst q0 p0.
    destruct (String.eqb q segment) eqn:Eq.
    + (* the path enters the child the walk enters *)
      apply String.eqb_eq in Eq. subst q.
      rewrite (ensureLevel_present segment (VObject c) o Hq) in Hget by discriminate.
      rewrite Hq in Hget. injection Hget as <-.
      assert (Hinner : exists node',
                 lookupPath path' x = Some node'
                 /\ Obj.get k node' = Some (VString s)).
      { destruct rest as [|next rest'].
        - subst x. destruct path' as [|q' path''].
          + injection Hnode as <-. exists (assignLeaf typeName verbs c).
            split; [reflexivity|].
            destruct (Hleaf eq_refl) as [Hkv Hku].
            now rewrite get_assignLeaf_other.
          + exists node. split; [|exact Hk].
            inversion Hplain' as [|q0 p0 Hq' _]; subst q0 p0.
            destruct (plain_not_verb verbs q' Hverbs Hq') as [Hqv Hqu].
            simpl. rewrite get_assignLeaf_other by assumption. exact Hnode.
        - apply (IH c x Hx path' node k s Hplain' Hnode Hk Hs).
          intros ->. now apply Hleaf. }
      destruct Hinner as [node' [Hnode' Hk']]. exists node'. split; [|exact Hk'].
      simpl. now rewrite ObjFacts.get_set_eq.
    + (* the path leaves the walk at the first key *)
      apply String.eqb_neq in Eq. exists node. split; [|exact Hk].
      simpl. rewrite ObjFacts.get_set_ne, get_ensureLevel_other, Hq by assumption.
      exact Hnode.
Qed.

(** GET then POST on [/users]: the key of GET is kept. *)
Lemma walkSegments_keeps_witness :
  exists o o' node',
    walkSegments ["users"] "UsersGet" ["$get"] Obj.empty = Ok o
    /\ walkSegments ["users"] "UsersPost" ["$post"] o = Ok o'
    /\ lookupPath ["users"] o' = Some node'
    /\ Obj.get "$get" node' = Some (VString "UsersGet")
    /\ Obj.get "$post" node' = Some (VString "UsersPost").
Proof.
  destruct (walkSegments ["users"] "UsersGet" ["$get"] Obj.empty)
    as [o|e] eqn:Hfirst; [|vm_compute in Hfirst; discriminate Hfirst].
  destruct (walkSegments ["users"] "UsersPost" ["$post"] o)
    as [o'|e] eqn:Hsecond;
    [|vm_compute in Hfirst; injection Hfirst as <-;
      vm_compute in Hsecond; discriminate Hsecond].
  destruct (walkSegments_keeps "UsersPost" ["$post"] ["users"]
              ltac:(repeat constructor) o o' Hsecond ["users"]
              [("$url", VObject []); ("$get", VString "UsersGet")]
              "$get" "UsersGet")
    as [node' [Hnode' Hget]].
  - repeat constructor.
  - vm_compute in Hfirst. injection Hfirst as <-. reflexivity.
  - reflexivity.
  - discriminate.
  - intros _. split; [intros [Heq|[]]; discriminate | discriminate].
  - exists o, o', node'. repeat split; try assumption.
    vm_compute in Hfirst. injection Hfirst as <-.
    vm_compute in Hsecond. injection Hsecond as <-.
    vm_compute in Hnode'. injection Hnode' as <-. reflexivity.
Defined.

(* ================================================================== *)
(** ** More on the generation run *)
(* ================================================================== *)

Section RunFacts.
Context `{Externals}.
Variable gen : ApiTypesGenerator.

Lemma walkSegments_top_keys typeName verbs segments (o o' : Obj.t DefValue) k :
  walkSegments segments typeName verbs o = Ok o' ->
  Obj.has k o' = true ->
  Obj.has k o = true \/ exists rest, segments = k :: rest.
Proof.
  destruct segments as [|segment rest]; simpl; intros Hwalk Hhas.
  - injection Hwalk as <-. now left.
  - destruct (String.eqb k segment) eqn:E.
    + apply String.eqb_eq in E. subst. right. eauto.
    + apply String.eqb_neq in E. left.
      destruct (Obj.get segment (ensureLevel segment o)) as [[t|child]|];
        try (now destruct rest).
      assert (Hset : exists x, o' = Obj.set segment (VObject x) (ensureLevel segment o)).
      { destruct rest as [|next rest'].
        - injection Hwalk as <-. eauto.
        - destruct (walkSegments (next :: rest') typeName verbs child);
            simpl in Hwalk; [|discriminate].
          injection Hwalk as <-. eauto. }
      destruct Hset as [x ->]. unfold Obj.has in *.
      now rewrite ObjFacts.get_set_ne, get_ensureLevel_other in Hhas.
Qed.

(** What a turn of the loop adds to the two accumulators. *)
Lemma processRoute_origin st route st' :
  processRoute gen st route = Ok st' ->
  (forall k, Obj.has k (typesByPattern st') = true ->
             Obj.has k (typesByPattern st) = true
             \/ (resolved gen route
                 /\ patternSegments (pattern route) <> []
                 /\ generateTypeName (pattern route) (methods route) = k))
  /\ (forall k, Obj.has k (definition st') = true ->
                Obj.has k (definition st) = true
                \/ (resolved gen route
                    /\ exists rest, patternSegments (pattern route) = k :: rest)).
Proof.
  unfold processRoute. intros Hstep.
  destruct (handler route) as [|reference] eqn:Hh;
    [injection Hstep as <-; split; intros k Hk; now left|].
  destruct (findControllerFile gen (parseBindingReference reference)) as [file|]
    eqn:Hfile; [|injection Hstep as <-; split; intros k Hk; now left].
  destruct (extractClassHandlerData file (parseBindingReference reference))
    as [handlerData|] eqn:Hdata;
    [|injection Hstep as <-; split; intros k Hk; now left].
  assert (Hres : resolved gen route) by (exists reference, file, handlerData; auto).
  destruct (extractRequest gen handlerData) as [warnings schemaImport].
  destruct (walkSegments (patternSegments (pattern route))
              (generateTypeName (pattern route) (methods route))
              (verbKeys route) (definition st)) as [definition'|e] eqn:Hwalk;
    simpl in Hstep; [|discriminate].
  injection Hstep as <-. simpl. split; intros k Hk.
  - destruct (patternSegments (pattern route)) as [|segment rest] eqn:Hsegments;
      [now left|].
    destruct (String.eqb k (generateTypeName (pattern route) (methods route))) eqn:E.
    + apply String.eqb_eq in E. right. split; [exact Hres|]. split; [discriminate|].
      now symmetry.
    + apply String.eqb_neq in E. left. unfold Obj.has in *.
      now rewrite ObjFacts.get_set_ne in Hk.
  - destruct (walkSegments_top_keys _ _ _ _ _ k Hwalk Hk) as [Hold|Hnew]; auto.
Qed.

Lemma processRoutes_origin rs :
  forall st st',
    processRoutes gen st rs = Ok st' ->
    (forall k, Obj.has k (typesByPattern st') = true ->
               Obj.has k (typesByPattern st) = true
               \/ exists r, In r rs /\ resolved gen r
                            /\ patternSegments (pattern r) <> []
                            /\ generateTypeName (pattern r) (methods r) = k)
    /\ (forall k, Obj.has k (definition st') = true ->
                  Obj.has k (definition st) = true
                  \/ exists r rest, In r rs /\ resolved gen r
                                    /\ patternSegments (pattern r) = k :: rest).
Proof.
  induction rs as [|route rest IH]; simpl; intros st st' Hrun.
  - injection Hrun as <-. split; intros k Hk; now left.
  - destruct (processRoute gen st route) as [st1|e] eqn:Hstep;
      simpl in Hrun; [|discriminate].
    destruct (IH st1 st' Hrun) as [Htypes Hdefinition].
    destruct (processRoute_origin st route st1 Hstep) as [Htypes1 Hdefinition1].
    split; intros k Hk.
    + destruct (Htypes k Hk) as [Hk1|[r [Hin Hr]]].
      * destruct (Htypes1 k Hk1) as [Hold|Hnew]; [now left|].
        right. exists route. split; [now left | exact Hnew].
      * right. exists r. split; [now right | exact Hr].
    + destruct (Hdefinition k Hk) as [Hk1|[r [tl [Hin Hr]]]].
      * destruct (Hdefinition1 k Hk1) as [Hold|[Hres [tl Hnew]]]; [now left|].
        right. exists route, tl. split; [now left | now split].
      * right. exists r, tl. split; [now right | exact Hr].
Qed.

(** Every key of the type map of a run is the type name of a route that
    passes the [definitions] filter, has a resolved handler and at least
    one segment: inline functions, unresolved handlers and the root
    pattern never get a type entry. *)
Theorem type_entries_origin (g : Generated) (k : string) :
  generated gen = Ok g ->
  Obj.has k (typesByPattern (out_state g)) = true ->
  exists r,
    In r (gen_routes gen)
    /\ passes (gen_config gen) Definitions r = true
    /\ resolved gen r
    /\ patternSegments (pattern r) <> []
    /\ generateTypeName (pattern r) (methods r) = k.
Proof.
  intros Hg Hk. unfold generated in Hg.
  destruct (processRoutes gen initialState (definitionRoutes gen)) as [st|e] eqn:Hrun;
    simpl in Hg; [|discriminate].
  injection Hg as <-. simpl in Hk.
  destruct (proj1 (processRoutes_origin _ _ _ Hrun) k Hk) as [Hold|[r [Hin Hr]]];
    [discriminate|].
  unfold definitionRoutes in Hin. apply filterRoutes_in in Hin.
  destruct Hin as [Hin Hpass]. exists r. auto.
Qed.

(** Every top-level key of the definition object of a run is the first
    segment of a route that passes the [definitions] filter and has a
    resolved handler. *)
Theorem definition_keys_origin (g : Generated) (k : string) :
  generated gen = Ok g ->
  Obj.has k (definition (out_state g)) = true ->
  exists r rest,
    In r (gen_routes gen)
    /\ passes (gen_config gen) Definitions r = true
    /\ resolved gen r
    /\ patternSegments (pattern r) = k :: rest.
Proof.
  intros Hg Hk. unfold generated in Hg.
  destruct (processRoutes gen initialState (definitionRoutes gen)) as [st|e] eqn:Hrun;
    simpl in Hg; [|discriminate].
  injection Hg as <-. simpl in Hk.
  destruct (proj2 (processRoutes_origin _ _ _ Hrun) k Hk) as [Hold|[r [rest [Hin Hr]]]];
    [discriminate|].
  unfold definitionRoutes in Hin. apply filterRoutes_in in Hin.
  destruct Hin as [Hin Hpass]. exists r, rest. destruct Hr. auto.
Qed.

End RunFacts.

Lemma type_entries_origin_witness :
  exists r,
    In r (gen_routes Sample.generator)
    /\ passes (gen_config Sample.generator) Definitions r = true
    /\ resolved (H := Model.externals) Sample.generator r
    /\ patternSegments (pattern r) <> []
    /\ generateTypeName (H := Model.externals) (pattern r) (methods r) = "UsersIdPut".
Proof.
  apply (type_entries_origin (H := Model.externals) Sample.generator _ "UsersIdPut"
                             eq_refl eq_refl).
Defined.

Lemma definition_keys_origin_witness :
  exists r rest,
    In r (gen_routes Sample.generator)
    /\ passes (gen_config Sample.generator) Definitions r = true
    /\ resolved (H := Model.externals) Sample.generator r
    /\ patternSegments (pattern r) = "users" :: rest.
Proof.
  apply (definition_keys_origin (H := Model.externals) Sample.generator _ "users"
                                eq_refl eq_refl).
Defined.

Section RunLogs.
Context `{Externals}.
Variable gen : ApiTypesGenerator.

(** The lines a turn of the loop adds to the log. *)
Lemma processRoute_logs st route st' :
  processRoute gen st route = Ok st' ->
  exists lines,
    logs st' = (logs st ++ lines)%list
    /\ match handler route with
       | HandlerFunction => lines = []
       | HandlerReference reference =>
           match findControllerFile gen (parseBindingReference reference) with
           | None =>
               lines = [Warning ("Unable to find the controller file for "
                                 ++ pattern route)]
           | Some file =>
               exists more,
                 lines = Info ("Generating types for " ++ pattern route) :: more
                 /\ (extractClassHandlerData file (parseBindingReference reference)
                     = None ->
                     more = [Warning ("Unable to find the controller method for "
                                      ++ pattern route)])
           end
       end.
Proof.
  unfold processRoute. intros Hstep.
  destruct (handler route) as [|reference].
  { injection Hstep as <-. exists []. now rewrite app_nil_r. }
  destruct (findControllerFile gen (parseBindingReference reference)) as [file|].
  2:{ injection Hstep as <-. eexists. split; reflexivity. }
  destruct (extractClassHandlerData file (parseBindingReference reference))
    as [handlerData|].
  2:{ injection Hstep as <-. eexists. split.
      - simpl. rewrite <- app_assoc. reflexivity.
      - eexists. split; reflexivity. }
  destruct (extractRequest gen handlerData) as [warnings schemaImport].
  destruct (walkSegments (patternSegments (pattern route))
              (generateTypeName (pattern route) (methods route))
              (verbKeys route) (definition st)) as [definition'|e];
    simpl in Hstep; [|discriminate].
  injection Hstep as <-. simpl. eexists. split.
  - rewrite <- app_assoc. reflexivity.
  - exists warnings. split; [reflexivity | discriminate].
Qed.

(** A completed run only appends to the log; it logs nothing for inline
    functions, and at its end the log holds, for every route with a handler
    reference, the warning that its controller file is missing, or the
    line that its types are generated and, when its method is not found, the
    warning that says so. *)
Theorem processRoutes_logs (rs : list RouteJSON) :
  forall st st',
    processRoutes gen st rs = Ok st' ->
    (exists lines, logs st' = (logs st ++ lines)%list)
    /\ ((forall r, In r rs -> handler r = HandlerFunction) -> logs st' = logs st)
    /\ (forall r reference,
          In r rs -> handler r = HandlerReference reference ->
          match findControllerFile gen (parseBindingReference reference) with
          | None =>
              In (Warning ("Unable to find the controller file for " ++ pattern r))
                 (logs st')
          | Some file =>
              In (Info ("Generating types for " ++ pattern r)) (logs st')
              /\ (extractClassHandlerData file (parseBindingReference reference)
                  = None ->
                  In (Warning ("Unable to find the controller method for "
                               ++ pattern r)) (logs st'))
          end).
Proof.
  induction rs as [|route rest IH]; simpl; intros st st' Hrun.
  - injection Hrun as <-. split; [exists []; now rewrite app_nil_r|].
    split; [reflexivity|]. intros r reference [].
  - destruct (processRoute gen st route) as [st1|e] eqn:Hstep;
      simpl in Hrun; [|discriminate].
    destruct (IH st1 st' Hrun) as [[more Hmore] [Hinline Hrest]].
    destruct (processRoute_logs st route st1 Hstep) as [lines [Hlines Hshape]].
    split; [|split].
    + exists (lines ++ more)%list. now rewrite Hmore, Hlines, app_assoc.
    + intros Hall. rewrite Hinline, Hlines; [|intros r Hr; apply Hall; now right].
      rewrite (Hall route (or_introl eq_refl)) in Hshape. subst lines.
      apply app_nil_r.
    + intros r reference [<-|Hin] Hh; [|now apply Hrest].
      rewrite Hh in Hshape. rewrite Hmore, Hlines.
      destruct (findControllerFile gen (parseBindingReference reference)) as [file|].
      * destruct Hshape as [tail [-> Hmethod]]. split.
        -- apply in_or_app. left. apply in_or_app. right. now left.
        -- intros Hnone. rewrite (Hmethod Hnone).
           apply in_or_app. left. apply in_or_app. right. right. now left.
      * subst lines. apply in_or_app. left. apply in_or_app. right. now left.
Qed.

End RunLogs.

Lemma processRoutes_logs_witness :
  exists st',
    processRoutes (H := Model.externals) Sample.generator initialState
                  [Sample.usersIndex; Sample.commentsShow; Sample.health] = Ok st'
    /\ In (Warning "Unable to find the controller file for /users/:id/comments/:commentId")
          (logs st').
Proof.
  eexists. split; [reflexivity|].
  apply (proj2 (proj2 (processRoutes_logs (H := Model.externals) Sample.generator
                         [Sample.usersIndex; Sample.commentsShow; Sample.health]
                         initialState _ eq_refl))
               Sample.commentsShow "#controllers/comments_controller.show").
  - simpl. auto.
  - reflexivity.
Defined.

(* ================================================================== *)
(** ** More on the written file *)
(* ================================================================== *)

Lemma append_assoc (a b c : string) : (a ++ b) ++ c = a ++ b ++ c.
Proof.
  induction a as [|x a IH]; [reflexivity|].
  change (String x ((a ++ b) ++ c) = String x (a ++ b ++ c)). now f_equal.
Qed.

Lemma append_empty_r (a : string) : a ++ EmptyString = a.
Proof.
  induction a as [|x a IH]; [reflexivity|].
  change (String x (a ++ EmptyString) = String x a). now f_equal.
Qed.

Lemma prefix_append (n b : string) : String.prefix n (n ++ b) = true.
Proof.
  induction n as [|x n IH]; [now destruct b|].
  change (String x n ++ b) with (String x (n ++ b)). simpl.
  destruct (ascii_dec x x); [exact IH | contradiction].
Qed.

(** A text includes what stands anywhere in it. *)
Lemma includes_middle (n a b : string) : JS.includes n (a ++ n ++ b) = true.
Proof.
  induction a as [|x a IH].
  - change (EmptyString ++ n ++ b) with (n ++ b).
    pose proof (prefix_append n b) as Hp.
    destruct (n ++ b); cbn [JS.includes]; now rewrite Hp.
  - change (String x a ++ n ++ b) with (String x (a ++ n ++ b)).
    cbn [JS.includes]. rewrite IH. apply orb_true_r.
Qed.

Lemma lastChar_append (a b : string) :
  b <> EmptyString -> Emit.lastChar (a ++ b) = Emit.lastChar b.
Proof.
  intros Hb. induction a as [|x a IH]; [reflexivity|].
  change (String x a ++ b) with (String x (a ++ b)).
  simpl. destruct (a ++ b) eqn:E; [|exact IH].
  destruct a, b; try discriminate. contradiction.
Qed.

Lemma lastChar_line (a : string) :
  Emit.lastChar (a ++ Emit.nl) = Some (ascii_of_nat 10).
Proof. now rewrite lastChar_append. Qed.

Lemma writeLine_any text w :
  exists p, Emit.writeLine text w = p ++ text ++ Emit.nl
            /\ exists s, p = w ++ s.
Proof.
  unfold Emit.writeLine. destruct (Emit.lastChar w) as [c|].
  - destruct (Ascii.eqb c (ascii_of_nat 10)).
    + exists w. split; [reflexivity|]. exists EmptyString. now rewrite append_empty_r.
    + exists (w ++ Emit.nl). split; [reflexivity|]. eauto.
  - exists w. split; [reflexivity|]. exists EmptyString. now rewrite append_empty_r.
Qed.

Section Written.

(** A writer call that only adds text at the end. *)
Local Abbreviation appends call := (forall w : string, exists s, call w = w ++ s).

(** A text whose last line is ended. *)
Local Abbreviation ended w := (Emit.lastChar w = Some (ascii_of_nat 10)).

Lemma ended_append (a b : string) : ended b -> ended (a ++ b).
Proof.
  intros Hb. rewrite lastChar_append; [exact Hb|]. intros ->. discriminate.
Qed.

Lemma writeLine_ended text w :
  ended w -> Emit.writeLine text w = w ++ text ++ Emit.nl.
Proof. intros Hw. unfold Emit.writeLine. now rewrite Hw. Qed.

Lemma appends_writeLine text : appends (Emit.writeLine text).
Proof.
  intros w. destruct (writeLine_any text w) as [p [-> [s ->]]].
  exists (s ++ text ++ Emit.nl). apply append_assoc.
Qed.

Lemma appends_write text : appends (Emit.write text).
Proof. intros w. now exists text. Qed.

Lemma appends_newLine : appends Emit.newLine.
Proof. intros w. now exists Emit.nl. Qed.

Lemma appends_fold (calls : list (string -> string)) :
  Forall (fun call => appends call) calls ->
  appends (fun w => fold_left (fun text call => call text) calls w).
Proof.
  induction 1 as [|call rest Hcall Hrest IH]; simpl; intros w.
  - exists EmptyString. now rewrite append_empty_r.
  - destruct (Hcall w) as [s ->]. destruct (IH (w ++ s)) as [s' ->].
    exists (s ++ s'). apply append_assoc.
Qed.

Lemma appends_writeTypes (types : Obj.t TypeEntry) :
  Forall (fun call => appends call) (flat_map writeType types).
Proof.
  induction types as [|[key value] rest IH]; simpl; [constructor|].
  repeat (constructor; [apply appends_writeLine|]). exact IH.
Qed.

Lemma appends_writeRoutes (routesNameArray : RouteNameArray) :
  Forall (fun call => appends call) (flat_map writeRoute routesNameArray).
Proof.
  induction routesNameArray as [|route rest IH]; simpl; [constructor|].
  repeat (constructor; [apply appends_writeLine|]). exact IH.
Qed.

(** What a group of calls writes as one block stays in the final text. *)
Lemma written_includes (before group after : list (string -> string)) block :
  (forall w, exists p, fold_left (fun text call => call text) group w = p ++ block) ->
  Forall (fun call => appends call) after ->
  JS.includes block (written (before ++ group ++ after)) = true.
Proof.
  intros Hgroup Hafter. unfold written. rewrite !fold_left_app.
  destruct (Hgroup (fold_left (fun text call => call text) before EmptyString))
    as [p ->].
  destruct (appends_fold after Hafter (p ++ block)) as [s Hs].
  simpl in Hs. rewrite Hs, append_assoc. apply includes_middle.
Qed.

Lemma writeType_block key value w :
  exists p,
    fold_left (fun text call => call text) (writeType (key, value)) w
    = p ++ typeBlock key value.
Proof.
  simpl. destruct (writeLine_any ("type " ++ key ++ " = {") w) as [p [-> _]].
  exists p. rewrite !writeLine_ended;
    repeat first [apply lastChar_line | apply ended_append].
  unfold typeBlock. now rewrite !append_assoc.
Qed.

Lemma writeRoute_block route w :
  exists p,
    fold_left (fun text call => call text) (writeRoute route) w
    = p ++ routeBlock route.
Proof.
  simpl. destruct (writeLine_any "  {" w) as [p [-> _]].
  exists p. rewrite !writeLine_ended;
    repeat first [apply lastChar_line | apply ended_append].
  unfold routeBlock. now rewrite !append_assoc.
Qed.

End Written.

Lemma definitionProperty_line indent key value :
  exists p, definitionProperty indent key value = p ++ Emit.nl.
Proof.
  destruct value as [s|o].
  - exists (indent ++ "'" ++ key ++ "': " ++ s ++ ";"). simpl.
    now rewrite !append_assoc.
  - eexists. cbn [definitionProperty].
    repeat rewrite <- append_assoc. reflexivity.
Qed.

Lemma generateDefinitionInterface_lines types indent :
  types = [] /\ generateDefinitionInterface types indent = EmptyString
  \/ types <> [] /\ exists p, generateDefinitionInterface types indent = p ++ Emit.nl.
Proof.
  induction types as [|[key value] rest IH]; [now left|].
  right. split; [discriminate|].
  cbn [generateDefinitionInterface].
  destruct IH as [[-> ->]|[_ [p ->]]].
  - rewrite append_empty_r. apply definitionProperty_line.
  - eexists. rewrite <- append_assoc. reflexivity.
Qed.

Lemma apiFileText_type_block (routesNameArray : RouteNameArray)
        (definition : Obj.t DefValue) (typesByPattern : Obj.t TypeEntry)
        (key : string) (value : TypeEntry) :
  In (key, value) typesByPattern ->
  JS.includes (typeBlock key value)
              (apiFileText routesNameArray definition typesByPattern) = true.
Proof.
  intros Hin. apply in_split in Hin. destruct Hin as [before [after ->]].
  unfold apiFileText. rewrite flat_map_app. cbn [flat_map].
  match goal with
  | |- JS.includes _ (written (?imports ++ (?b ++ ?g ++ ?a) ++ ?rest)%list) = true =>
      replace (imports ++ (b ++ g ++ a) ++ rest)%list
        with ((imports ++ b) ++ g ++ (a ++ rest))%list
        by (now rewrite <- !List.app_assoc)
  end.
  apply written_includes.
  - intros w. apply writeType_block.
  - apply Forall_app. split; [apply appends_writeTypes|].
    apply Forall_app. split;
      [repeat constructor;
       first [apply appends_writeLine | apply appends_write]|].
    apply Forall_app. split; [repeat constructor; apply appends_writeLine|].
    apply Forall_app. split; [apply appends_writeRoutes|].
    repeat constructor; apply appends_writeLine.
Qed.

(** For every entry of the type map the written file holds its alias:
    the line that opens it, its request, its response and the closing
    brace, one after the other. *)
Theorem apiFile_declares_types (routesNameArray : RouteNameArray)
        (definition : Obj.t DefValue) (typesByPattern : Obj.t TypeEntry)
        (key : string) (value : TypeEntry) :
  In (key, value) typesByPattern ->
  JS.includes (typeBlock key value)
              (apiFileText routesNameArray definition typesByPattern) = true.
Proof. apply apiFileText_type_block. Qed.

Lemma apiFile_declares_types_witness :
  JS.includes
    (typeBlock "UsersGet" {| request := "unknown"; response := "string" |})
    (apiFileText [] [] [("UsersGet", {| request := "unknown"; response := "string" |})])
  = true.
Proof.
  apply apiFile_declares_types. now left.
Defined.

(** For every entry of the named-routes array the written file holds its
    seven lines, one after the other. *)
Theorem apiFile_lists_routes (routesNameArray : RouteNameArray)
        (definition : Obj.t DefValue) (typesByPattern : Obj.t TypeEntry)
        (route : RouteName.t) :
  In route routesNameArray ->
  JS.includes (routeBlock route)
              (apiFileText routesNameArray definition typesByPattern) = true.
Proof.
  intros Hin. apply in_split in Hin. destruct Hin as [before [after ->]].
  unfold apiFileText. rewrite (flat_map_app writeRoute). cbn [flat_map].
  match goal with
  | |- JS.includes _
         (written (?imports ++ ?ts ++ ?iface ++ ?open ++ (?b ++ ?g ++ ?a) ++ ?rest)%list)
       = true =>
      replace (imports ++ ts ++ iface ++ open ++ (b ++ g ++ a) ++ rest)%list
        with ((imports ++ ts ++ iface ++ open ++ b) ++ g ++ (a ++ rest))%list
        by (now rewrite <- !List.app_assoc)
  end.
  apply written_includes.
  - intros w. apply writeRoute_block.
  - apply Forall_app. split; [apply appends_writeRoutes|].
    repeat constructor; apply appends_writeLine.
Qed.

Lemma apiFile_lists_routes_witness :
  JS.includes
    (routeBlock (routeNameEntry (H := Model.externals) [] Sample.health))
    (apiFileText [routeNameEntry (H := Model.externals) [] Sample.health] [] [])
  = true.
Proof.
  apply apiFile_lists_routes. now left.
Defined.

(** The written file holds the definition interface as one block: the
    opening line, the properties and the closing brace on a line of its
    own; the properties are no text at all exactly when the definition
    object has no property. *)
Theorem apiFile_interface (routesNameArray : RouteNameArray)
        (definition : Obj.t DefValue) (typesByPattern : Obj.t TypeEntry) :
  JS.includes (interfaceBlock definition)
              (apiFileText routesNameArray definition typesByPattern) = true
  /\ forall indent,
       generateDefinitionInterface definition indent = EmptyString <-> definition = [].
Proof.
  split.
  - unfold apiFileText.
    match goal with
    | |- JS.includes _ (written (?imports ++ ?ts ++ ?iface ++ ?rest)%list) = true =>
        replace (imports ++ ts ++ iface ++ rest)%list
          with ((imports ++ ts) ++ iface ++ rest)%list
          by (now rewrite <- !List.app_assoc)
    end.
    apply written_includes.
    + intros w. cbn [fold_left].
      destruct (writeLine_any "export interface ApiDefinition {" w) as [p [-> _]].
      exists p. unfold Emit.write, interfaceBlock.
      destruct (generateDefinitionInterface_lines definition "  ")
        as [[_ ->]|[_ [q ->]]].
      * rewrite append_empty_r.
        rewrite writeLine_ended
          by (repeat first [apply lastChar_line | apply ended_append]).
        now rewrite !append_assoc.
      * rewrite writeLine_ended
          by (repeat first [apply lastChar_line | apply ended_append]).
        now rewrite !append_assoc.
    + apply Forall_app. split; [repeat constructor; apply appends_writeLine|].
      apply Forall_app. split; [apply appends_writeRoutes|].
      repeat constructor; apply appends_writeLine.
  - intros indent.
    destruct (generateDefinitionInterface_lines definition indent)
      as [[-> ->]|[Hne [p Hp]]]; [tauto|].
    split; [|intros ->; contradiction].
    rewrite Hp. intros Hempty. destruct p; discriminate.
Qed.



(* ================================================================== *)
(** ** When the walk raises *)
(* ================================================================== *)

(** A pattern whose last segment is a key that holds a type name, in the
    node the segments before it lead to, makes the walk raise: the type
    name is a string, and [currentLevel.$url = {}] is an assignment on it.
    And a walk that completes has met no type name on its way: under none
    of its segments, in the node the segments before it lead to, is a
    non-empty one stored. *)
Theorem walkSegments_throws typeName verbs :
  (forall before k (o node : Obj.t DefValue) s,
      lookupPath before o = Some node ->
      Obj.get k node = Some (VString s) ->
      s <> EmptyString ->
      walkSegments (before ++ [k]) typeName verbs o
      = Throw "TypeError")
  /\ (forall segments (o o' : Obj.t DefValue),
        walkSegments segments typeName verbs o = Ok o' ->
        forall before k after node s,
          segments = (before ++ k :: after)%list ->
          lookupPath before o = Some node ->
          Obj.get k node = Some (VString s) ->
          s = EmptyString).
Proof.
  split.
  - induction before as [|q before' IH]; intros k o node s Hnode Hk Hs.
    + injection Hnode as <-. simpl.
      rewrite (ensureLevel_present k (VString s) o Hk) by congruence.
      now rewrite Hk.
    + simpl in Hnode.
      destruct (Obj.get q o) as [[t|c]|] eqn:Hq; try discriminate.
      change ((q :: before') ++ [k])%list with (q :: (before' ++ [k]))%list.
      simpl. rewrite (ensureLevel_present q (VObject c) o Hq) by discriminate.
      rewrite Hq.
      pose proof (IH k c node s Hnode Hk Hs) as Hrec.
      destruct (before' ++ [k])%list as [|next rest'] eqn:Hrest;
        [destruct before'; discriminate|].
      now rewrite Hrec.
  - induction segments as [|segment rest IH];
      intros o o' Hwalk before k after node s Hsegments Hnode Hk.
    { destruct before; discriminate. }
    destruct before as [|q before'].
    + injection Hsegments as -> ->. injection Hnode as <-.
      destruct s as [|x s']; [reflexivity|]. exfalso.
      simpl in Hwalk.
      rewrite (ensureLevel_present k (VString (String x s')) o Hk) in Hwalk
        by discriminate.
      rewrite Hk in Hwalk. now destruct after.
    + injection Hsegments as -> ->. simpl in Hnode.
      destruct (Obj.get q o) as [[t|c]|] eqn:Hq; try discriminate.
      simpl in Hwalk.
      rewrite (ensureLevel_present q (VObject c) o Hq) in Hwalk by discriminate.
      rewrite Hq in Hwalk.
      destruct (before' ++ k :: after)%list as [|next rest'] eqn:Hrest;
        [destruct before'; discriminate|].
      destruct (walkSegments (next :: rest') typeName verbs c) as [x|e] eqn:Hrec;
        simpl in Hwalk; [|discriminate].
      now apply (IH c x Hrec before' k after node s).
Qed.

(** [/users] with GET, then the pattern [/users/$get]. *)
Lemma walkSegments_throws_witness :
  walkSegments ["users"; "$get"] "UsersGetGet" ["$get"]
               [("users", VObject [("$url", VObject []); ("$get", VString "UsersGet")])]
  = Throw "TypeError".
Proof.
  apply (proj1 (walkSegments_throws "UsersGetGet" ["$get"]) ["users"] "$get" _
               [("$url", VObject []); ("$get", VString "UsersGet")] "UsersGet").
  - reflexivity.
  - reflexivity.
  - discriminate.
Defined.

(* ================================================================== *)
(** ** What a completed run holds *)
(* ================================================================== *)

Section RunHolds.
Context `{Externals}.
Variable gen : ApiTypesGenerator.

Lemma walkSegments_keeps_top typeName verbs segments (o o' : Obj.t DefValue) k :
  walkSegments segments typeName verbs o = Ok o' ->
  Obj.has k o = true \/ (exists rest, segments = k :: rest) ->
  Obj.has k o' = true.
Proof.
  destruct segments as [|segment rest]; simpl; intros Hwalk Hk.
  - injection Hwalk as <-. destruct Hk as [Hk|[rest' Hrest]]; [exact Hk | discriminate].
  - destruct (Obj.get segment (ensureLevel segment o)) as [[t|child]|] eqn:Hget;
      try (now destruct rest).
    assert (Hset : exists x, o' = Obj.set segment (VObject x) (ensureLevel segment o)).
    { destruct rest as [|next rest'].
      - injection Hwalk as <-. eauto.
      - destruct (walkSegments (next :: rest') typeName verbs child);
          simpl in Hwalk; [|discriminate].
        injection Hwalk as <-. eauto. }
    destruct Hset as [x ->].
    destruct (String.eqb k segment) eqn:E.
    + apply String.eqb_eq in E. subst. apply ObjFacts.has_set_eq.
    + apply String.eqb_neq in E.
      destruct Hk as [Hk|[rest' [= -> _]]]; [|contradiction].
      unfold Obj.has in *.
      now rewrite ObjFacts.get_set_ne, get_ensureLevel_other.
Qed.

(** What a turn of the loop leaves in the two accumulators: the old keys
    and, for a resolved route, its type name and its first segment. *)
Lemma processRoute_holds st route st' :
  processRoute gen st route = Ok st' ->
  (forall k, Obj.has k (typesByPattern st) = true ->
             Obj.has k (typesByPattern st') = true)
  /\ (forall k, Obj.has k (definition st) = true -> Obj.has k (definition st') = true)
  /\ (resolved gen route ->
      forall k rest,
        patternSegments (pattern route) = k :: rest ->
        Obj.has (generateTypeName (pattern route) (methods route)) (typesByPattern st')
        = true
        /\ Obj.has k (definition st') = true).
Proof.
  unfold processRoute. intros Hstep.
  destruct (handler route) as [|reference] eqn:Hh.
  { injection Hstep as <-. split; [auto|]. split; [auto|].
    intros [reference [file [hd [Hh' _]]]]. congruence. }
  destruct (findControllerFile gen (parseBindingReference reference)) as [file|]
    eqn:Hfile.
  2:{ injection Hstep as <-. split; [auto|]. split; [auto|].
      intros [reference' [file [hd [Hh' [Hfile' _]]]]].
      rewrite Hh in Hh'. injection Hh' as <-. congruence. }
  destruct (extractClassHandlerData file (parseBindingReference reference))
    as [handlerData|] eqn:Hdata.
  2:{ injection Hstep as <-. split; [auto|]. split; [auto|].
      intros [reference' [file' [hd [Hh' [Hfile' Hdata']]]]].
      rewrite Hh in Hh'. injection Hh' as <-. congruence. }
  destruct (extractRequest gen handlerData) as [warnings schemaImport].
  destruct (walkSegments (patternSegments (pattern route))
              (generateTypeName (pattern route) (methods route))
              (verbKeys route) (definition st)) as [definition'|e] eqn:Hwalk;
    simpl in Hstep; [|discriminate].
  injection Hstep as <-. simpl. split; [|split].
  - intros k Hk. destruct (patternSegments (pattern route)); [exact Hk|].
    now apply ObjFacts.has_set_mono.
  - intros k Hk. apply (walkSegments_keeps_top _ _ _ _ _ k Hwalk). now left.
  - intros _ k rest Hsegments. rewrite Hsegments in *. split.
    + apply ObjFacts.has_set_eq.
    + apply (walkSegments_keeps_top _ _ _ _ _ k Hwalk). right. eauto.
Qed.

(** At the end of a completed run, every route of the list with a resolved
    handler and at least one segment has its type name in the type map
    and its first segment in the definition object, whatever the routes
    after it do. *)
Theorem processRoutes_holds (rs : list RouteJSON) :
  forall st st',
    processRoutes gen st rs = Ok st' ->
    forall r k rest,
      In r rs ->
      resolved gen r ->
      patternSegments (pattern r) = k :: rest ->
      Obj.has (generateTypeName (pattern r) (methods r)) (typesByPattern st') = true
      /\ Obj.has k (definition st') = true.
Proof.
  assert (Hmono : forall rs st st',
             processRoutes gen st rs = Ok st' ->
             (forall k, Obj.has k (typesByPattern st) = true ->
                        Obj.has k (typesByPattern st') = true)
             /\ (forall k, Obj.has k (definition st) = true ->
                           Obj.has k (definition st') = true)).
  { induction rs0 as [|route rest IH]; simpl; intros st st' Hrun.
    - injection Hrun as <-. auto.
    - destruct (processRoute gen st route) as [st1|e] eqn:Hstep;
        simpl in Hrun; [|discriminate].
      destruct (processRoute_holds st route st1 Hstep) as [Ht [Hd _]].
      destruct (IH st1 st' Hrun) as [Ht' Hd']. auto. }
  induction rs as [|route rest IH]; simpl; intros st st' Hrun r k tl Hin Hres Hsegments;
    [contradiction|].
  destruct (processRoute gen st route) as [st1|e] eqn:Hstep;
    simpl in Hrun; [|discriminate].
  destruct Hin as [<-|Hin]; [|now apply (IH st1 st' Hrun r k tl)].
  destruct (processRoute_holds st route st1 Hstep) as [_ [_ Hnew]].
  destruct (Hnew Hres k tl Hsegments) as [Ht Hd].
  destruct (Hmono rest st1 st' Hrun) as [Ht' Hd']. auto.
Qed.

End RunHolds.

Lemma processRoutes_holds_witness :
  exists st',
    processRoutes (H := Model.externals) Sample.generator initialState
                  [Sample.usersUpdate; Sample.usersIndex; Sample.health] = Ok st'
    /\ Obj.has "UsersIdPut" (typesByPattern st') = true
    /\ Obj.has "users" (definition st') = true.
Proof.
  eexists. split; [reflexivity|].
  apply (processRoutes_holds (H := Model.externals) Sample.generator
           [Sample.usersUpdate; Sample.usersIndex; Sample.health]
           initialState _ eq_refl Sample.usersUpdate "users" [":id"]).
  - now left.
  - exists "#controllers/users_controller.update", Sample.usersController,
           Sample.updateHandler. repeat split.
  - reflexivity.
Defined.

(* ================================================================== *)
(** ** A route processed twice *)
(* ================================================================== *)

Lemma replace_same {V} k (v : V) (o : Obj.t V) :
  Obj.get k o = Some v -> Obj.replace k v o = o.
Proof.
  induction o as [|[k' v'] rest IH]; simpl; [reflexivity|].
  destruct (String.eqb k k') eqn:E.
  - apply String.eqb_eq in E. subst. now intros [= ->].
  - intros Hget. now rewrite IH.
Qed.

(** Assigning to a property the value it has changes nothing. *)
Lemma set_same {V} k (v : V) (o : Obj.t V) :
  Obj.get k o = Some v -> Obj.set k v o = o.
Proof.
  intros Hget. unfold Obj.set, Obj.has. rewrite Hget. now apply replace_same.
Qed.

Lemma assignLeaf_again typeName verbs (o : Obj.t DefValue) :
  ~ In "$url" verbs ->
  assignLeaf typeName verbs (assignLeaf typeName verbs o)
  = assignLeaf typeName verbs o.
Proof.
  intros Hurl. set (x := assignLeaf typeName verbs o).
  assert (Hverbs : forall m, In m verbs -> Obj.get m x = Some (VString typeName))
    by (intros m Hm; now apply get_assignLeaf_verb).
  unfold assignLeaf at 1.
  rewrite (set_same "$url" (VObject Obj.empty) x)
    by now apply get_assignLeaf_url.
  clearbody x. induction verbs as [|m rest IH]; simpl; [reflexivity|].
  rewrite (set_same m (VString typeName) x) by (apply Hverbs; now left).
  apply IH.
  - intros Hin. apply Hurl. now right.
  - intros m' Hm'. apply Hverbs. now right.
Qed.

Lemma walkSegments_again typeName verbs segments :
  ~ In "$url" verbs ->
  forall (o o' : Obj.t DefValue),
    walkSegments segments typeName verbs o = Ok o' ->
    walkSegments segments typeName verbs o' = Ok o'.
Proof.
  intros Hurl. induction segments as [|segment rest IH]; intros o o' Hwalk;
    [reflexivity|].
  simpl in Hwalk.
  destruct (Obj.get segment (ensureLevel segment o)) as [[t|child]|] eqn:Hget;
    try (now destruct rest).
  assert (Hout : exists x,
             o' = Obj.set segment (VObject x) (ensureLevel segment o)
             /\ match rest with
                | [] => assignLeaf typeName verbs x = x
                | _ => walkSegments rest typeName verbs x = Ok x
                end).
  { destruct rest as [|next rest'].
    - injection Hwalk as <-. eexists. split; [reflexivity|].
      now apply assignLeaf_again.
    - destruct (walkSegments (next :: rest') typeName verbs child) as [child'|e]
        eqn:Hrec; simpl in Hwalk; [|discriminate].
      injection Hwalk as <-. eexists. split; [reflexivity|].
      now apply (IH child). }
  destruct Hout as [x [-> Hx]].
  set (level := Obj.set segment (VObject x) (ensureLevel segment o)).
  assert (Hlevel : Obj.get segment level = Some (VObject x))
    by apply ObjFacts.get_set_eq.
  simpl. rewrite (ensureLevel_present segment (VObject x) level Hlevel) by discriminate.
  rewrite Hlevel. destruct rest as [|next rest'].
  - rewrite Hx. now rewrite (set_same segment (VObject x) level Hlevel).
  - rewrite Hx. simpl. now rewrite (set_same segment (VObject x) level Hlevel).
Qed.

(** A route processed a second time right after the first leaves the
    definition object and the type map as they are, provided none of its
    methods gives the key [$url]: a route listed twice counts once. *)
Theorem processRoute_twice (E : Externals) (gen : ApiTypesGenerator)
        (st st1 : GenState) (route : RouteJSON) :
  ~ In "$url" (verbKeys route) ->
  processRoute gen st route = Ok st1 ->
  exists st2, processRoute gen st1 route = Ok st2 /\ sameData st1 st2.
Proof.
  intros Hurl Hstep. unfold processRoute in *.
  destruct (handler route) as [|reference];
    [injection Hstep as <-; eexists; split; [reflexivity | now split]|].
  destruct (findControllerFile gen (parseBindingReference reference)) as [file|];
    [|injection Hstep as <-; eexists; split; [reflexivity | now split]].
  destruct (extractClassHandlerData file (parseBindingReference reference))
    as [handlerData|];
    [|injection Hstep as <-; eexists; split; [reflexivity | now split]].
  destruct (extractRequest gen handlerData) as [warnings schemaImport].
  destruct (walkSegments (patternSegments (pattern route))
              (generateTypeName (pattern route) (methods route))
              (verbKeys route) (definition st)) as [definition'|e] eqn:Hwalk;
    simpl in Hstep; [|discriminate].
  injection Hstep as <-. simpl.
  rewrite (walkSegments_again _ _ _ Hurl _ _ Hwalk). simpl.
  eexists. split; [reflexivity|]. split; [reflexivity|]. simpl.
  destruct (patternSegments (pattern route)); [reflexivity|].
  symmetry. apply set_same, ObjFacts.get_set_eq.
Qed.

Lemma processRoute_twice_witness :
  exists st1 st2,
    processRoute (H := Model.externals) Sample.generator initialState Sample.usersIndex
    = Ok st1
    /\ processRoute (H := Model.externals) Sample.generator st1 Sample.usersIndex = Ok st2
    /\ sameData st1 st2.
Proof.
  destruct (processRoute (H := Model.externals) Sample.generator initialState
                         Sample.usersIndex) as [st1|e] eqn:Hfirst;
    [|vm_compute in Hfirst; discriminate Hfirst].
  destruct (processRoute_twice Model.externals Sample.generator initialState st1
                               Sample.usersIndex)
    as [st2 [Hsecond Hsame]].
  - intros [Heq|[Heq|[]]]; discriminate.
  - exact Hfirst.
  - exists st1, st2. split; [reflexivity|]. split; [exact Hsecond | exact Hsame].
Defined.
